(** * ocl::Device — identity, lifetime and capability queries

    A shallow embedding of [src/Code/src/ocl_device.cpp] (OpenCL Utility
    Toolkit).  Pure helpers of the translation unit (the extension scan, the
    version comparison) are Rocq functions over C strings; member functions
    that talk to the OpenCL runtime run in a small monad that records every
    native call and can end in a C++ exception or in undefined behaviour. *)

From Stdlib Require Import List String Ascii ZArith NArith Arith Bool Lia.
Import ListNotations.

(** ** Outcomes of running a piece of C++ *)

(** What the translation unit can throw. *)
Inductive exception : Type :=
| NativeApiError (status : Z)
| runtime_error (what : string).

(** The ways in which the code can leave defined behaviour. *)
Inductive undefined : Type :=
| OutOfBounds (index : nat)   (* dereference of an element outside the array *)
| UninitializedRead           (* read of an object that was never written *)
| Unrepresentable             (* scanf conversion result does not fit the int *)
| NoProgress.                 (* loop without end and without side effect *)

Inductive outcome (A : Type) : Type :=
| Ok (a : A)
| Throw (e : exception)
| Undefined (u : undefined).

Arguments Ok {A} a.
Arguments Throw {A} e.
Arguments Undefined {A} u.

Definition outcome_bind {A B} (o : outcome A) (k : A -> outcome B) : outcome B :=
  match o with
  | Ok a => k a
  | Throw e => Throw e
  | Undefined u => Undefined u
  end.

(** ** C strings *)

Module CString.

Definition NUL : ascii := Ascii.zero.
Definition SP : ascii := " "%char.

(** [s.c_str()]: the characters of [s] followed by the terminator.  A
    pointer into this array is an index; [skipn p a] is what a
    library routine sees when handed [a + p]. *)
Definition c_str (s : string) : list ascii := list_ascii_of_string s ++ [NUL].

Definition deref (a : list ascii) (p : nat) : option ascii := nth_error a p.

(** Characters up to the first terminator: a [std::string] built from a
    pointer to characters. *)
Fixpoint until_nul (a : list ascii) : list ascii :=
  match a with
  | [] => []
  | c :: a' => if Ascii.eqb c NUL then [] else c :: until_nul a'
  end.

(** The three routines of <cstring> the scan uses.  [None] means the
    routine ran off the end of the array before it could stop. *)
Fixpoint strlen (a : list ascii) : option nat :=
  match a with
  | [] => None
  | c :: a' => if Ascii.eqb c NUL then Some 0 else option_map S (strlen a')
  end.

Fixpoint strcspn (a : list ascii) (reject : list ascii) : option nat :=
  match a with
  | [] => None
  | c :: a' =>
      if Ascii.eqb c NUL || existsb (Ascii.eqb c) reject then Some 0
      else option_map S (strcspn a' reject)
  end.

Fixpoint strncmp (a b : list ascii) (n : nat) {struct n} : option Z :=
  match n with
  | O => Some 0%Z
  | S n' =>
      match a, b with
      | ca :: a', cb :: b' =>
          if negb (Ascii.eqb ca cb)
          then Some (Z.of_N (N_of_ascii ca) - Z.of_N (N_of_ascii cb))%Z
          else if Ascii.eqb ca NUL then Some 0%Z
          else strncmp a' b' n'
      | _, _ => None
      end
  end.

Definition nul_free (l : list ascii) : Prop := Forall (fun c => c <> NUL) l.
Definition space_free (l : list ascii) : Prop := Forall (fun c => c <> SP) l.

End CString.
Import CString.

(** ** The extension scan *)

(** The [while] loop of the file-static [supportsExtension].  [arr] is the
    array behind [extensionsString.c_str()], [p] the scan pointer as an index
    into it, [ext] the array behind [extension] and [len] its [strlen].
    Every iteration moves [p] forward by at least one, so the loop is run on
    a budget of iterations; [None] is an exhausted budget. *)
Fixpoint supportsExtension_loop (fuel : nat) (arr ext : list ascii) (len p : nat)
  : option (outcome bool) :=
  match fuel with
  | O => None
  | S fuel' =>
      match deref arr p with
      | None => Some (Undefined (OutOfBounds p))
      | Some c =>
          if Ascii.eqb c NUL then Some (Ok false)
          else
            match strcspn (skipn p arr) [SP] with
            | None => Some (Undefined (OutOfBounds (List.length arr)))
            | Some n =>
                let hit :=
                  if Nat.eqb len n
                  then option_map (Z.eqb 0) (strncmp (skipn p arr) ext n)
                  else Some false in
                match hit with
                | None => Some (Undefined (OutOfBounds (List.length arr)))
                | Some true => Some (Ok true)
                | Some false => supportsExtension_loop fuel' arr ext len (p + S n)
                end
            end
      end
  end.

(** The file-static [supportsExtension (extensionsString, extension)]. *)
Definition supportsExtension_static (extensionsString : string) (extension : list ascii)
  : outcome bool :=
  match strlen extension with
  | None => Undefined (OutOfBounds (List.length extension))
  | Some len =>
      let arr := c_str extensionsString in
      match supportsExtension_loop (S (List.length arr)) arr extension len 0 with
      | Some o => o
      | None => Undefined NoProgress
      end
  end.

(** Tokens of a space-delimited string: the pieces between consecutive
    spaces, in order (an empty string has the single empty piece). *)
Fixpoint split_space (l : list ascii) : list (list ascii) :=
  match l with
  | [] => [[]]
  | c :: l' =>
      if Ascii.eqb c SP then [] :: split_space l'
      else match split_space l' with
           | t :: ts => (c :: t) :: ts
           | [] => [[c]]
           end
  end.

Definition tokens (s : string) : list string :=
  map string_of_list_ascii (split_space (list_ascii_of_string s)).

Definition ends_with_space (s : string) : Prop :=
  last (list_ascii_of_string s) NUL = SP.

Definition nul_free_string (s : string) : Prop :=
  nul_free (list_ascii_of_string s).

Definition list_ascii_eqb (a b : list ascii) : bool :=
  if list_eq_dec ascii_dec a b then true else false.

(** What the scan answers, told from the pieces instead of the pointer: it
    takes the pieces in order and stops at the first that equals [e]; an
    empty last piece is the terminator itself, and past a non-empty last
    piece lies the element [oob] outside the array. *)
Fixpoint walk (oob : nat) (e : list ascii) (ts : list (list ascii)) : outcome bool :=
  match ts with
  | [] => Undefined (OutOfBounds oob)
  | t :: ts' =>
      match t, ts' with
      | [], [] => Ok false
      | _, _ => if list_ascii_eqb t e then Ok true else walk oob e ts'
      end
  end.

(** ** Formatted input: the part of [std::sscanf] the file relies on *)

Module Scanf.

Local Open Scope Z_scope.

Definition INT_MIN : Z := - 2 ^ 31.
Definition INT_MAX : Z := 2 ^ 31 - 1.

Definition isspace (c : ascii) : bool :=
  let n := Z.of_N (N_of_ascii c) in
  (n =? 32) || ((9 <=? n) && (n <=? 13)).

Fixpoint skip_space (l : list ascii) : list ascii :=
  match l with
  | [] => []
  | c :: l' => if isspace c then skip_space l' else l
  end.

(** Directives of a format: white space, an ordinary character, or the
    conversion [%i].  Other conversions do not occur in the file; a format
    is read up to the first of them. *)
Inductive directive : Type :=
| White
| Literal (c : ascii)
| Conv_i.

Fixpoint parse_format (f : list ascii) : list directive :=
  match f with
  | [] => []
  | c :: f' =>
      if isspace c then White :: parse_format f'
      else if Ascii.eqb c "%"%char then
        match f' with
        | i :: f'' => if Ascii.eqb i "i"%char then Conv_i :: parse_format f'' else []
        | [] => []
        end
      else Literal c :: parse_format f'
  end.

Definition digit_value (base : Z) (c : ascii) : option Z :=
  let n := Z.of_N (N_of_ascii c) in
  let v :=
    if (48 <=? n) && (n <=? 57) then Some (n - 48)
    else if (97 <=? n) && (n <=? 102) then Some (n - 87)
    else if (65 <=? n) && (n <=? 70) then Some (n - 55)
    else None in
  match v with
  | Some d => if d <? base then Some d else None
  | None => None
  end.

Fixpoint read_digits (base acc : Z) (l : list ascii) : Z * list ascii :=
  match l with
  | [] => (acc, [])
  | c :: l' =>
      match digit_value base c with
      | Some d => read_digits base (acc * base + d) l'
      | None => (acc, l)
      end
  end.

(** The subject sequence of [%i] is that of [strtol] with base 0: leading
    white space, an optional sign, then [0x]/[0X] and hexadecimal digits,
    or [0] and octal digits, or decimal digits.  The input item is the
    longest prefix of the input that is, or starts, such a sequence; when
    it is not itself one (a lone sign, [0x] without a digit) the directive
    fails.  The result is the value and the input left over. *)
Definition scan_i (l : list ascii) : option (Z * list ascii) :=
  let l0 := skip_space l in
  let '(sign, l1) :=
    match l0 with
    | c :: r => if Ascii.eqb c "-"%char then (-1, r)
                else if Ascii.eqb c "+"%char then (1, r) else (1, l0)
    | [] => (1, l0)
    end in
  match l1 with
  | [] => None
  | c0 :: r0 =>
      if Ascii.eqb c0 "0"%char then
        match r0 with
        | x :: r1 =>
            if Ascii.eqb x "x"%char || Ascii.eqb x "X"%char then
              match r1 with
              | h :: _ =>
                  match digit_value 16 h with
                  | Some _ => let '(v, rest) := read_digits 16 0 r1 in Some (sign * v, rest)
                  | None => None
                  end
              | [] => None
              end
            else let '(v, rest) := read_digits 8 0 r0 in Some (sign * v, rest)
        | [] => Some (0, [])
        end
      else
        match digit_value 10 c0 with
        | Some _ => let '(v, rest) := read_digits 10 0 l1 in Some (sign * v, rest)
        | None => None
        end
  end.

(** Runs the directives over the input and returns the values converted,
    in order; the first directive that fails ends the scan.  A value that
    does not fit the receiving [int] leaves defined behaviour. *)
Fixpoint run (ds : list directive) (input : list ascii) : outcome (list Z) :=
  match ds with
  | [] => Ok []
  | White :: ds' => run ds' (skip_space input)
  | Literal c :: ds' =>
      match input with
      | c' :: rest => if Ascii.eqb c c' then run ds' rest else Ok []
      | [] => Ok []
      end
  | Conv_i :: ds' =>
      match scan_i input with
      | None => Ok []
      | Some (v, rest) =>
          if (INT_MIN <=? v) && (v <=? INT_MAX)
          then outcome_bind (run ds' rest) (fun vs => Ok (v :: vs))
          else Undefined Unrepresentable
      end
  end.

(** [std::sscanf (s, format, ...)] for a character array [s]. *)
Definition sscanf (s : list ascii) (format : string) : outcome (list Z) :=
  run (parse_format (list_ascii_of_string format)) (until_nul s).

(** The [i]-th receiving variable after the call: the [i]-th converted
    value, or what the variable held before. *)
Definition stored (vals : list Z) (i : nat) (before : Z) : Z := nth i vals before.

End Scanf.
Import Scanf.

(** ** Version comparison *)

Local Open Scope Z_scope.

(** Body of [ocl::Device::supportsVersion] once [version()] has returned. *)
Definition supportsVersion_on (version : string) (major minor : Z) : outcome bool :=
  outcome_bind (sscanf (c_str version) "OpenCL %i.%i") (fun vals =>
    let mjr := stored vals 0 0 in
    let mnr := stored vals 1 0 in
    Ok ((mjr >? major) || ((mjr =? major) && (mnr >=? minor)))).

(** Body of the file-static [supportsAtLeast1Point2] once the platform
    version sits in the local array [version]. *)
Definition supportsAtLeast1Point2_on (version : list ascii) : outcome bool :=
  outcome_bind (sscanf version "OpenCL %i.%i") (fun vals =>
    let major := stored vals 0 0 in
    let minor := stored vals 1 0 in
    Ok ((major >? 1) || ((major =? 1) && (minor >? 1)))).







(** ** The OpenCL runtime as seen from the translation unit *)

Module CL.

Definition cl_int : Type := Z.
Definition CL_SUCCESS : cl_int := 0.
Definition CL_INVALID_VALUE : cl_int := -30.
Definition CL_INVALID_PLATFORM : cl_int := -32.
Definition CL_INVALID_DEVICE : cl_int := -33.
Definition CL_TRUE : Z := 1.

(** Object handles are addresses; the null handle is [0]. *)
Definition cl_device_id : Type := N.
Definition cl_platform_id : Type := N.

Inductive cl_device_info : Type :=
| CL_DEVICE_TYPE
| CL_DEVICE_MAX_COMPUTE_UNITS
| CL_DEVICE_MAX_WORK_ITEM_DIMENSIONS
| CL_DEVICE_MAX_WORK_ITEM_SIZES
| CL_DEVICE_MAX_WORK_GROUP_SIZE
| CL_DEVICE_MAX_CONSTANT_BUFFER_SIZE
| CL_DEVICE_MAX_MEM_ALLOC_SIZE
| CL_DEVICE_GLOBAL_MEM_SIZE
| CL_DEVICE_LOCAL_MEM_SIZE
| CL_DEVICE_PLATFORM
| CL_DEVICE_VERSION
| CL_DEVICE_NAME
| CL_DEVICE_VENDOR
| CL_DEVICE_EXTENSIONS
| CL_DEVICE_IMAGE_SUPPORT.

Inductive cl_platform_info : Type :=
| CL_PLATFORM_VERSION.

(** A call into the runtime with the arguments the caller chose.  For the
    two pointer arguments of an info query only whether they are non-null
    is recorded. *)
Inductive native_call : Type :=
| clGetDeviceInfo (device : cl_device_id) (param_name : cl_device_info)
    (param_value_size : N) (param_value : bool) (param_value_size_ret : bool)
| clGetPlatformInfo (platform : cl_platform_id) (param_name : cl_platform_info)
    (param_value_size : N) (param_value : bool) (param_value_size_ret : bool)
| clRetainDevice (device : cl_device_id)
| clReleaseDevice (device : cl_device_id).

(** What the runtime hands back: the status code, the value stored through
    [param_value_size_ret], and the value it offers for [param_value]. *)
Inductive payload : Type :=
| NoData
| Scalar (v : Z)
| Scalars (vs : list Z)
| Handle (h : N)
| Chars (s : string).

Record response : Type := {
  status : cl_int;
  size_ret : N;
  data : payload
}.

(** The runtime is any function from the calls made so far and the
    current call to a response. *)
Definition Native : Type := list native_call -> native_call -> response.

(** The device handle a call is made on, if it is a device call. *)
Definition call_device (c : native_call) : option cl_device_id :=
  match c with
  | clGetDeviceInfo d _ _ _ _ => Some d
  | clRetainDevice d => Some d
  | clReleaseDevice d => Some d
  | clGetPlatformInfo _ _ _ _ _ => None
  end.

Definition is_release (c : native_call) : bool :=
  match c with
  | clReleaseDevice _ => true
  | _ => false
  end.

(** The string the runtime leaves in a caller's array of [size] bytes: it
    writes the characters and a terminator, and nothing when they do not
    fit. *)
Definition written_string (size : N) (r : response) : option string :=
  match data r with
  | Chars s => if (N.of_nat (String.length s) + 1 <=? size)%N then Some s else None
  | _ => None
  end.

End CL.
Import CL.

(** ** Running member functions *)

Definition M (A : Type) : Type :=
  Native -> list native_call -> outcome A * list native_call.

Definition ret {A} (a : A) : M A := fun _ tr => (Ok a, tr).

Definition bind {A B} (m : M A) (k : A -> M B) : M B :=
  fun native tr =>
    match m native tr with
    | (Ok a, tr') => k a native tr'
    | (Throw e, tr') => (Throw e, tr')
    | (Undefined u, tr') => (Undefined u, tr')
    end.

Definition throw {A} (e : exception) : M A := fun _ tr => (Throw e, tr).
Definition undefined_behaviour {A} (u : undefined) : M A := fun _ tr => (Undefined u, tr).
Definition lift {A} (o : outcome A) : M A := fun _ tr => (o, tr).

(** Issues a native call: the runtime answers, the call is logged. *)
Definition call (c : native_call) : M response :=
  fun native tr => (Ok (native tr c), tr ++ [c]).

Declare Scope ocl_scope.
Delimit Scope ocl_scope with ocl.
Notation "x <- m ;; k" := (bind m (fun x => k))
  (at level 61, m at next level, right associativity) : ocl_scope.
Notation "m ;; k" := (bind m (fun _ => k))
  (at level 61, right associativity) : ocl_scope.
Local Open Scope ocl_scope.

(** Modelled from the spec: the macro [OPENCL_SAFE_CALL] comes from
    [ocl_query.h], which is not among the sources.  Per the spec it is the
    one place where a native status becomes an error: a status other than
    success raises the native-API error carrying it. *)
Definition OPENCL_SAFE_CALL (st : cl_int) : M unit :=
  if st =? CL_SUCCESS then ret tt else throw (NativeApiError st).

(** Reading a local variable that a successful query was to fill. *)
Definition read_scalar (bits : Z) (r : response) : M Z :=
  match data r with
  | Scalar v => ret (v mod 2 ^ bits)
  | _ => undefined_behaviour UninitializedRead
  end.

Definition read_handle (r : response) : M N :=
  match data r with
  | Handle h => ret h
  | _ => undefined_behaviour UninitializedRead
  end.

(** ** ocl::Device *)

(** Modelled from the spec: the class [ocl::DeviceType] and the constants
    of [ocl::device_type] live in a header that is not among the sources.
    The spec gives the category as one of CPU, GPU, ACCELERATOR and ALL,
    obtained from the runtime's bit flag. *)
Inductive DeviceType : Type := CPU | GPU | ACCELERATOR | ALL.

Definition DeviceType_eqb (a b : DeviceType) : bool :=
  match a, b with
  | CPU, CPU | GPU, GPU | ACCELERATOR, ACCELERATOR | ALL, ALL => true
  | _, _ => false
  end.

Definition CL_DEVICE_TYPE_CPU : Z := 2.
Definition CL_DEVICE_TYPE_GPU : Z := 4.
Definition CL_DEVICE_TYPE_ACCELERATOR : Z := 8.

Definition DeviceType_type (t : Z) : DeviceType :=
  if t =? CL_DEVICE_TYPE_CPU then CPU
  else if t =? CL_DEVICE_TYPE_GPU then GPU
  else if t =? CL_DEVICE_TYPE_ACCELERATOR then ACCELERATOR
  else ALL.

Record Device : Type := {
  _id : cl_device_id;
  _type : DeviceType
}.

Module Device.

(** [Device (cl_device_id dev)] *)
Definition ctor (dev : cl_device_id) : M Device :=
  r <- call (clGetDeviceInfo dev CL_DEVICE_TYPE 8 true false) ;;
  OPENCL_SAFE_CALL (status r) ;;
  t <- read_scalar 64 r ;;
  ret {| _id := dev; _type := DeviceType_type t |}.

(** [Device ()] *)
Definition empty : Device := {| _id := 0%N; _type := ALL |}.

Definition id (this : Device) : cl_device_id := _id this.
Definition type (this : Device) : DeviceType := _type this.

(** [setId] *)
Definition setId (id : cl_device_id) (this : Device) : M Device :=
  ret {| _id := id; _type := _type this |}.

(** [operator ==] and [operator !=] on another Device, on a raw
    identifier and on a category. *)
Definition eq (this dev : Device) : bool := N.eqb (id dev) (id this).
Definition ne (this dev : Device) : bool := negb (N.eqb (id dev) (id this)).
Definition eq_id (this : Device) (dev : cl_device_id) : bool := N.eqb dev (id this).
Definition ne_id (this : Device) (dev : cl_device_id) : bool := negb (N.eqb dev (id this)).
Definition eq_type (this : Device) (t : DeviceType) : bool := DeviceType_eqb t (type this).
Definition ne_type (this : Device) (t : DeviceType) : bool := negb (DeviceType_eqb t (type this)).

Definition isGpu (this : Device) : bool := DeviceType_eqb (type this) (DeviceType_type CL_DEVICE_TYPE_GPU).
Definition isCpu (this : Device) : bool := DeviceType_eqb (type this) (DeviceType_type CL_DEVICE_TYPE_CPU).
Definition isAccelerator (this : Device) : bool :=
  DeviceType_eqb (type this) (DeviceType_type CL_DEVICE_TYPE_ACCELERATOR).

(** Queries that fill one local variable of a fixed width. *)
Definition query_scalar (this : Device) (info : cl_device_info) (bytes : N) : M Z :=
  r <- call (clGetDeviceInfo (id this) info bytes true false) ;;
  OPENCL_SAFE_CALL (status r) ;;
  read_scalar (8 * Z.of_N bytes) r.

Definition maxComputeUnits (this : Device) : M Z :=
  query_scalar this CL_DEVICE_MAX_COMPUTE_UNITS 4.
Definition maxWorkItemDim (this : Device) : M Z :=
  query_scalar this CL_DEVICE_MAX_WORK_ITEM_DIMENSIONS 4.
Definition maxWorkGroupSize (this : Device) : M Z :=
  query_scalar this CL_DEVICE_MAX_WORK_GROUP_SIZE 8.
Definition maxConstantBufferSize (this : Device) : M Z :=
  query_scalar this CL_DEVICE_MAX_CONSTANT_BUFFER_SIZE 8.
Definition maxMemAllocSize (this : Device) : M Z :=
  query_scalar this CL_DEVICE_MAX_MEM_ALLOC_SIZE 8.
Definition globalMemSize (this : Device) : M Z :=
  query_scalar this CL_DEVICE_GLOBAL_MEM_SIZE 8.
Definition localMemSize (this : Device) : M Z :=
  query_scalar this CL_DEVICE_LOCAL_MEM_SIZE 8.

(** The vector starts as three zeros and keeps them where the runtime
    writes nothing. *)
Definition maxWorkItemSizes (this : Device) : M (list Z) :=
  r <- call (clGetDeviceInfo (id this) CL_DEVICE_MAX_WORK_ITEM_SIZES 24 true false) ;;
  OPENCL_SAFE_CALL (status r) ;;
  match data r with
  | Scalars vs => ret (map (fun i => nth i vs 0 mod 2 ^ 64) [0%nat; 1%nat; 2%nat])
  | _ => ret [0; 0; 0]
  end.

(** [support] starts as [CL_FALSE]. *)
Definition imageSupport (this : Device) : M bool :=
  r <- call (clGetDeviceInfo (id this) CL_DEVICE_IMAGE_SUPPORT 4 true false) ;;
  OPENCL_SAFE_CALL (status r) ;;
  match data r with
  | Scalar v => ret (v mod 2 ^ 32 =? CL_TRUE)
  | _ => ret false
  end.

(** [platform ()] *)
Definition platform (this : Device) : M cl_platform_id :=
  r <- call (clGetDeviceInfo (id this) CL_DEVICE_PLATFORM 8 true false) ;;
  OPENCL_SAFE_CALL (status r) ;;
  pl <- read_handle r ;;
  if N.eqb pl 0 then throw (runtime_error "platform not found") else ret pl.

(** The file-static [getDeviceInfo]: ask for the size, allocate, fill. *)
Definition getDeviceInfo (id : cl_device_id) (info : cl_device_info) : M string :=
  r1 <- call (clGetDeviceInfo id info 0 false true) ;;
  OPENCL_SAFE_CALL (status r1) ;;
  let size := size_ret r1 in
  r2 <- call (clGetDeviceInfo id info size true false) ;;
  OPENCL_SAFE_CALL (status r2) ;;
  match written_string size r2 with
  | Some s => ret (string_of_list_ascii (until_nul (c_str s)))
  | None => undefined_behaviour UninitializedRead
  end.

Definition version (this : Device) : M string := getDeviceInfo (id this) CL_DEVICE_VERSION.
Definition name (this : Device) : M string := getDeviceInfo (id this) CL_DEVICE_NAME.
Definition vendor (this : Device) : M string := getDeviceInfo (id this) CL_DEVICE_VENDOR.
Definition extensions (this : Device) : M string := getDeviceInfo (id this) CL_DEVICE_EXTENSIONS.

(** [supportsVersion (major, minor)] *)
Definition supportsVersion (major minor : Z) (this : Device) : M bool :=
  v <- version this ;;
  lift (supportsVersion_on v major minor).

(** [supportsExtension (ext)] and [doubleSupport ()] *)
Definition supportsExtension (ext : string) (this : Device) : M bool :=
  e <- extensions this ;;
  lift (supportsExtension_static e (c_str ext)).

Definition doubleSupport (this : Device) : M bool :=
  supportsExtension "cl_khr_fp64" this.

(** The file-static [supportsAtLeast1Point2]: one call into a local array
    of 128 characters, whose status is not looked at. *)
Definition supportsAtLeast1Point2 (id : cl_platform_id) : M bool :=
  r <- call (clGetPlatformInfo id CL_PLATFORM_VERSION 128 true true) ;;
  match written_string 128 r with
  | Some s => lift (supportsAtLeast1Point2_on (c_str s))
  | None => undefined_behaviour UninitializedRead
  end.

(** The retain and release steps; [OPENCL_V1_2] is the build switch of
    the same name. *)
Definition retain_if_supported (OPENCL_V1_2 : bool) (this : Device) : M unit :=
  if OPENCL_V1_2 then
    pl <- platform this ;;
    counted <- supportsAtLeast1Point2 pl ;;
    if counted : bool then
      r <- call (clRetainDevice (_id this)) ;; OPENCL_SAFE_CALL (status r)
    else ret tt
  else ret tt.

Definition release_if_supported (OPENCL_V1_2 : bool) (this : Device) : M unit :=
  if OPENCL_V1_2 then
    pl <- platform this ;;
    counted <- supportsAtLeast1Point2 pl ;;
    if counted : bool then
      r <- call (clReleaseDevice (_id this)) ;; OPENCL_SAFE_CALL (status r)
    else ret tt
  else ret tt.

(** The destructor, returning the object as it leaves it.  An exception
    that escapes it is reported as the outcome; the identifier is then not
    cleared. *)
Definition dtor (OPENCL_V1_2 : bool) (this : Device) : M Device :=
  if negb (N.eqb (_id this) 0) then
    release_if_supported OPENCL_V1_2 this ;;
    ret {| _id := 0%N; _type := _type this |}
  else ret this.

(** The copy constructor. *)
Definition copy (OPENCL_V1_2 : bool) (dev : Device) : M Device :=
  let this := {| _id := _id dev; _type := _type dev |} in
  retain_if_supported OPENCL_V1_2 this ;;
  ret this.

(** Copy assignment; [same_object] says whether [&dev] is [this]. *)
Definition assign (OPENCL_V1_2 : bool) (same_object : bool) (this dev : Device) : M Device :=
  if negb same_object then
    let this' := {| _id := _id dev; _type := _type dev |} in
    retain_if_supported OPENCL_V1_2 this' ;;
    ret this'
  else ret this.

Definition discard {A} (m : M A) : M unit := _ <- m ;; ret tt.

(** The capability queries of the class, by name, with their results
    dropped so that they share a type. *)
Definition capability_queries (major minor : Z) (ext : string)
  : list (string * (Device -> M unit)) :=
  [ ("maxComputeUnits", fun d => discard (maxComputeUnits d));
    ("maxWorkItemDim", fun d => discard (maxWorkItemDim d));
    ("maxWorkItemSizes", fun d => discard (maxWorkItemSizes d));
    ("maxWorkGroupSize", fun d => discard (maxWorkGroupSize d));
    ("maxConstantBufferSize", fun d => discard (maxConstantBufferSize d));
    ("maxMemAllocSize", fun d => discard (maxMemAllocSize d));
    ("globalMemSize", fun d => discard (globalMemSize d));
    ("localMemSize", fun d => discard (localMemSize d));
    ("platform", fun d => discard (platform d));
    ("version", fun d => discard (version d));
    ("name", fun d => discard (name d));
    ("vendor", fun d => discard (vendor d));
    ("extensions", fun d => discard (extensions d));
    ("imageSupport", fun d => discard (imageSupport d));
    ("supportsVersion", fun d => discard (supportsVersion major minor d));
    ("supportsExtension", fun d => discard (supportsExtension ext d));
    ("doubleSupport", fun d => discard (doubleSupport d)) ]%string.

End Device.

(** ** Shapes of call sequences *)

(** A size-then-fill string query: a first call with no array that asks
    for the length, then a second call on the same object and key whose
    array has exactly the length the first call reported. *)
Definition two_step_query (native : Native) (before : list native_call)
  (calls : list native_call) : Prop :=
  match calls with
  | [clGetDeviceInfo d i 0%N false true; clGetDeviceInfo d' i' n true false] =>
      d' = d /\ i' = i /\ n = size_ret (native before (clGetDeviceInfo d i 0%N false true))
  | [clGetPlatformInfo p i 0%N false true; clGetPlatformInfo p' i' n true false] =>
      p' = p /\ i' = i /\ n = size_ret (native before (clGetPlatformInfo p i 0%N false true))
  | _ => False
  end.

Definition releases (tr : list native_call) : list native_call := filter is_release tr.

(** ** A sample runtime *)

Definition answer (st : cl_int) (n : N) (d : payload) : response :=
  {| status := st; size_ret := n; data := d |}.

(** A string attribute answered by the rules of the info queries: the size
    needed counts the terminator, and an array that is too short is refused
    and left alone. *)
Definition answer_string (s : string) (size : N) (buf : bool) : response :=
  let need := (N.of_nat (String.length s) + 1)%N in
  if buf && (size <? need)%N then answer CL_INVALID_VALUE 0 NoData
  else answer CL_SUCCESS need (if buf then Chars s else NoData).

(** One platform, handle 7, reporting [platform_version]; every non-null
    device handle is a GPU of that platform, the null handle is refused. *)
Definition sample_runtime (platform_version : string) : Native :=
  fun _ c =>
    match c with
    | clGetDeviceInfo d info size buf _ =>
        if N.eqb d 0 then answer CL_INVALID_DEVICE 0 NoData
        else match info with
             | CL_DEVICE_TYPE => answer CL_SUCCESS 8 (Scalar CL_DEVICE_TYPE_GPU)
             | CL_DEVICE_PLATFORM => answer CL_SUCCESS 8 (Handle 7)
             | CL_DEVICE_VERSION => answer_string "OpenCL 1.2 Sample" size buf
             | CL_DEVICE_NAME => answer_string "Sample Device" size buf
             | CL_DEVICE_VENDOR => answer_string "Sample Vendor" size buf
             | CL_DEVICE_EXTENSIONS => answer_string "cl_khr_fp64 cl_khr_gl_sharing" size buf
             | CL_DEVICE_MAX_WORK_ITEM_SIZES => answer CL_SUCCESS 24 (Scalars [1024; 1024; 64])
             | _ => answer CL_SUCCESS 8 (Scalar 16)
             end
    | clGetPlatformInfo p CL_PLATFORM_VERSION size buf _ =>
        if N.eqb p 7 then answer_string platform_version size buf
        else answer CL_INVALID_PLATFORM 0 NoData
    | clRetainDevice d | clReleaseDevice d =>
        if N.eqb d 0 then answer CL_INVALID_DEVICE 0 NoData
        else answer CL_SUCCESS 0 NoData
    end.

(** A runtime whose devices report no platform. *)
Definition orphan_runtime : Native :=
  fun _ _ => answer CL_SUCCESS 8 (Handle 0).

Definition sample_device : Device := {| _id := 1%N; _type := GPU |}.

(** The errors a capability query can end in: a native status other than
    success, or the missing platform. *)
Definition thrown_by_runtime_or_platform (e : exception) : Prop :=
  (exists st, e = NativeApiError st /\ st <> CL_SUCCESS)
  \/ e = runtime_error "platform not found".

(** ** Further shapes of call sequences *)

Definition is_retain (c : native_call) : bool :=
  match c with
  | clRetainDevice _ => true
  | _ => false
  end.

Definition retains (tr : list native_call) : list native_call := filter is_retain tr.

(** At every point of the history the runtime reports [pl] as the platform
    of device [d] and writes [version] as the version of [pl]. *)
Definition reports_platform (native : Native) (d : cl_device_id)
  (pl : cl_platform_id) (version : string) : Prop :=
  forall tr,
    status (native tr (clGetDeviceInfo d CL_DEVICE_PLATFORM 8 true false)) = CL_SUCCESS
    /\ data (native tr (clGetDeviceInfo d CL_DEVICE_PLATFORM 8 true false)) = Handle pl
    /\ written_string 128 (native tr (clGetPlatformInfo pl CL_PLATFORM_VERSION 128 true true))
       = Some version.

(** At every point of the history the runtime accepts a retain and a
    release of device [d]. *)
Definition accepts_counting (native : Native) (d : cl_device_id) : Prop :=
  forall tr,
    status (native tr (clRetainDevice d)) = CL_SUCCESS
    /\ status (native tr (clReleaseDevice d)) = CL_SUCCESS.

(** The queries that read one integer, with the key and the width in bytes
    each one passes. *)
Definition scalar_queries : list ((Device -> M Z) * cl_device_info * N) :=
  [ (Device.maxComputeUnits, CL_DEVICE_MAX_COMPUTE_UNITS, 4%N);
    (Device.maxWorkItemDim, CL_DEVICE_MAX_WORK_ITEM_DIMENSIONS, 4%N);
    (Device.maxWorkGroupSize, CL_DEVICE_MAX_WORK_GROUP_SIZE, 8%N);
    (Device.maxConstantBufferSize, CL_DEVICE_MAX_CONSTANT_BUFFER_SIZE, 8%N);
    (Device.maxMemAllocSize, CL_DEVICE_MAX_MEM_ALLOC_SIZE, 8%N);
    (Device.globalMemSize, CL_DEVICE_GLOBAL_MEM_SIZE, 8%N);
    (Device.localMemSize, CL_DEVICE_LOCAL_MEM_SIZE, 8%N) ].

(** The order on versions: major first, then minor. *)
Definition version_le (a b : Z * Z) : Prop :=
  fst a < fst b \/ (fst a = fst b /\ snd a <= snd b).

(** * Facts *)

(** ** The extension scan *)

Section ScanFacts.
Local Open Scope nat_scope.

Lemma split_space_cons_sp r : split_space (SP :: r) = [] :: split_space r.
Proof. reflexivity. Qed.

Lemma split_space_nonempty l : split_space l <> [].
Proof.
  induction l as [|c l IH]; simpl; [discriminate|].
  destruct (Ascii.eqb c SP); [discriminate|].
  destruct (split_space l); discriminate.
Qed.

Lemma split_space_app_sp t r :
  space_free t -> split_space (t ++ SP :: r) = t :: split_space r.
Proof.
  induction 1 as [|c t Hc Ht IH]; simpl; [reflexivity|].
  apply Ascii.eqb_neq in Hc. rewrite Hc, IH. reflexivity.
Qed.

Lemma split_space_free t : space_free t -> split_space t = [t].
Proof.
  induction 1 as [|c t Hc Ht IH]; simpl; [reflexivity|].
  apply Ascii.eqb_neq in Hc. rewrite Hc, IH. reflexivity.
Qed.

Lemma span_space l :
  exists t tail, l = t ++ tail /\ space_free t /\ (tail = [] \/ exists r, tail = SP :: r).
Proof.
  induction l as [|c l (t & tail & -> & Ht & Htail)].
  - exists [], []. repeat split; [constructor | now left].
  - destruct (ascii_dec c SP) as [->|Hc].
    + exists [], (SP :: t ++ tail). repeat split; [constructor | right; eauto].
    + exists (c :: t), tail. repeat split; [now constructor | assumption].
Qed.

Lemma strcspn_token t c r :
  nul_free t -> space_free t -> c = NUL \/ c = SP ->
  strcspn (t ++ c :: r) [SP] = Some (List.length t).
Proof.
  intros Hn Hs Hc. induction t as [|a t IH]; simpl.
  - destruct Hc as [-> | ->]; reflexivity.
  - inversion Hn; inversion Hs; subst.
    rewrite (proj2 (Ascii.eqb_neq a NUL)), (proj2 (Ascii.eqb_neq a SP)) by assumption.
    simpl. rewrite IH by assumption. reflexivity.
Qed.

Lemma strncmp_token t e r1 r2 :
  nul_free t -> List.length t = List.length e ->
  exists z, strncmp (t ++ r1) (e ++ r2) (List.length t) = Some z /\ (z = 0%Z <-> t = e).
Proof.
  intros Hn. revert e. induction Hn as [|a t Ha Hn IH]; intros [|b e] Hlen; try discriminate.
  - exists 0%Z. split; [reflexivity | tauto].
  - simpl in Hlen. injection Hlen as Hlen. simpl.
    destruct (Ascii.eqb a b) eqn:Hab; simpl.
    + apply Ascii.eqb_eq in Hab. subst b.
      rewrite (proj2 (Ascii.eqb_neq a NUL)) by assumption.
      destruct (IH e Hlen) as (z & Hz & Hiff). exists z. split; [assumption|].
      rewrite Hiff. split; [intros ->; reflexivity | intros H; now injection H].
    + apply Ascii.eqb_neq in Hab. eexists. split; [reflexivity|].
      split.
      * intros Hz. exfalso. apply Hab.
        assert (N_of_ascii a = N_of_ascii b) as Heq by lia.
        rewrite <- (ascii_N_embedding a), <- (ascii_N_embedding b), Heq. reflexivity.
      * intros H. injection H as H _. contradiction.
Qed.

Lemma strlen_c_array e : nul_free e -> strlen (e ++ [NUL]) = Some (List.length e).
Proof.
  induction 1 as [|a e Ha He IH]; simpl; [reflexivity|].
  rewrite (proj2 (Ascii.eqb_neq a NUL)) by assumption. rewrite IH. reflexivity.
Qed.

Lemma deref_middle (pre rest : list ascii) :
  deref (pre ++ rest) (List.length pre) = hd_error rest.
Proof.
  unfold deref. induction pre; simpl; [destruct rest; reflexivity | assumption].
Qed.

Lemma skipn_middle (pre rest : list ascii) : skipn (List.length pre) (pre ++ rest) = rest.
Proof. induction pre; simpl; [reflexivity | assumption]. Qed.

Lemma loop_walk e fuel : forall pre rest,
  nul_free rest -> List.length rest < fuel ->
  supportsExtension_loop fuel (pre ++ rest ++ [NUL]) (e ++ [NUL]) (List.length e) (List.length pre)
  = Some (walk (S (List.length (pre ++ rest))) e (split_space rest)).
Proof.
  induction fuel as [|fuel IH]; intros pre rest Hn Hfuel; [lia|].
  cbn [supportsExtension_loop]. rewrite deref_middle, skipn_middle.
  destruct (span_space rest) as (t & tail & -> & Ht & Htail).
  assert (nul_free t /\ nul_free tail) as [Hnt Hntail]
    by (apply Forall_app; exact Hn).
  destruct Htail as [-> | (r & ->)].
  - (* the last token *)
    rewrite app_nil_r in *. rewrite (split_space_free _ Ht).
    destruct t as [|a t].
    + reflexivity.
    + cbn [app hd_error]. inversion Hnt as [|? ? Ha Hnt']; subst.
      rewrite (proj2 (Ascii.eqb_neq a NUL)) by assumption.
      change (a :: t ++ [NUL]) with ((a :: t) ++ NUL :: []).
      rewrite (strcspn_token (a :: t) NUL [] Hnt Ht) by now left.
      cbn [walk]. unfold list_ascii_eqb.
      assert (Hoob : supportsExtension_loop fuel (pre ++ (a :: t) ++ [NUL]) (e ++ [NUL])
                (List.length e) (List.length pre + S (List.length (a :: t)))
              = Some (Undefined (OutOfBounds (S (List.length (pre ++ a :: t)))))).
      { destruct fuel as [|fuel]; [simpl in Hfuel; lia|].
        cbn [supportsExtension_loop]. unfold deref.
        replace (nth_error _ _) with (@None ascii).
        - rewrite length_app. do 3 f_equal. lia.
        - symmetry. apply nth_error_None. rewrite !length_app. simpl. lia. }
      destruct (Nat.eqb_spec (List.length e) (List.length (a :: t))) as [Hlen|Hlen].
      * destruct (strncmp_token (a :: t) e [NUL] [NUL] Hnt (eq_sym Hlen)) as (z & Hz & Hiff).
        change ((a :: t) ++ [NUL]) with ((a :: t) ++ [NUL]) in Hz. rewrite Hz. cbn [option_map].
        destruct (list_eq_dec ascii_dec (a :: t) e) as [Heq|Hne].
        -- apply Hiff in Heq. subst z. reflexivity.
        -- destruct (Z.eqb_spec 0 z) as [Hz0|Hz0]; [exfalso; apply Hne, Hiff; auto|].
           exact Hoob.
      * destruct (list_eq_dec ascii_dec (a :: t) e) as [Heq|Hne];
          [subst e; contradiction|]. exact Hoob.
  - (* a token followed by a space *)
    rewrite (split_space_app_sp _ r Ht).
    assert (Hhd : hd_error ((t ++ SP :: r) ++ [NUL]) = Some (hd SP t)).
    { destruct t; reflexivity. }
    rewrite Hhd.
    assert (Hnn : Ascii.eqb (hd SP t) NUL = false).
    { destruct t as [|a t]; [reflexivity|]. inversion Hnt; subst. now apply Ascii.eqb_neq. }
    rewrite Hnn. rewrite <- app_assoc. cbn [app].
    rewrite (strcspn_token t SP (r ++ [NUL]) Hnt Ht) by now right.
    assert (Hnext : supportsExtension_loop fuel (pre ++ (t ++ SP :: r) ++ [NUL]) (e ++ [NUL])
              (List.length e) (List.length pre + S (List.length t))
            = Some (walk (S (List.length (pre ++ t ++ SP :: r))) e (split_space r))).
    { specialize (IH (pre ++ t ++ [SP]) r).
      replace (pre ++ (t ++ SP :: r) ++ [NUL]) with ((pre ++ t ++ [SP]) ++ r ++ [NUL])
        by (rewrite <- !app_assoc; reflexivity).
      replace (List.length pre + S (List.length t)) with (List.length (pre ++ t ++ [SP]))
        by (rewrite !length_app; simpl; lia).
      rewrite IH.
      - do 3 f_equal. rewrite <- !app_assoc. reflexivity.
      - inversion Hntail; assumption.
      - rewrite length_app in Hfuel. simpl in Hfuel. lia. }
    assert (Hwalk : walk (S (List.length (pre ++ t ++ SP :: r))) e (t :: split_space r)
            = if list_ascii_eqb t e then Ok true
              else walk (S (List.length (pre ++ t ++ SP :: r))) e (split_space r)).
    { cbn [walk]. destruct t; [|reflexivity].
      destruct (split_space r) eqn:Hsp; [now apply split_space_nonempty in Hsp | reflexivity]. }
    rewrite Hwalk. unfold list_ascii_eqb.
    destruct (Nat.eqb_spec (List.length e) (List.length t)) as [Hlen|Hlen].
    + destruct (strncmp_token t e (SP :: r ++ [NUL]) [NUL] Hnt (eq_sym Hlen)) as (z & Hz & Hiff).
      rewrite Hz. cbn [option_map].
      destruct (list_eq_dec ascii_dec t e) as [Heq|Hne].
      * apply Hiff in Heq. subst z. reflexivity.
      * destruct (Z.eqb_spec 0 z) as [Hz0|Hz0]; [exfalso; apply Hne, Hiff; auto|].
        rewrite <- app_assoc in Hnext. exact Hnext.
    + destruct (list_eq_dec ascii_dec t e) as [Heq|Hne]; [subst e; contradiction|].
      rewrite <- app_assoc in Hnext. exact Hnext.
Qed.

Lemma walk_range oob e ts :
  walk oob e ts = Ok true \/ walk oob e ts = Ok false \/
  walk oob e ts = Undefined (OutOfBounds oob).
Proof.
  induction ts as [|t ts IH]; cbn [walk]; [auto|].
  destruct t, ts; auto; destruct (list_ascii_eqb _ e); auto.
Qed.

Lemma list_ascii_eqb_spec a b : reflect (a = b) (list_ascii_eqb a b).
Proof. unfold list_ascii_eqb. destruct (list_eq_dec ascii_dec a b); now constructor. Qed.

Lemma walk_out_of_bounds oob e ts :
  ts <> [] ->
  (walk oob e ts = Undefined (OutOfBounds oob) <-> last ts [] <> [] /\ ~ In e ts).
Proof.
  induction ts as [|t ts IH]; [congruence|]. intros _.
  destruct ts as [|t' ts].
  - cbn [walk last In]. destruct t as [|a t].
    + split; [discriminate | intros [H _]; congruence].
    + destruct (list_ascii_eqb_spec (a :: t) e) as [Heq|Hne].
      * split; [discriminate | intros [_ H]; exfalso; apply H; auto].
      * split; [intros _; split; [discriminate | intros [H|[]]; auto] | reflexivity].
  - assert (Hw : walk oob e (t :: t' :: ts)
                 = if list_ascii_eqb t e then Ok true else walk oob e (t' :: ts))
      by (cbn [walk]; destruct t; reflexivity).
    rewrite Hw. change (last (t :: t' :: ts) []) with (last (t' :: ts) []).
    destruct (list_ascii_eqb_spec t e) as [Heq|Hne].
    + split; [discriminate | intros [_ H]; exfalso; apply H; left; assumption].
    + rewrite IH by discriminate. cbn [In]. tauto.
Qed.

Lemma walk_true oob e ts :
  e <> [] -> (walk oob e ts = Ok true <-> In e ts).
Proof.
  intros He. induction ts as [|t ts IH]; cbn [walk In].
  - split; [discriminate | tauto].
  - destruct t as [|a t], ts as [|t' ts].
    + split; [discriminate | intros [H|[]]; congruence].
    + destruct (list_ascii_eqb_spec [] e) as [Heq|Hne]; [congruence|].
      rewrite IH. tauto.
    + destruct (list_ascii_eqb_spec (a :: t) e) as [Heq|Hne]; [tauto|].
      rewrite IH. tauto.
    + destruct (list_ascii_eqb_spec (a :: t) e) as [Heq|Hne]; [tauto|].
      rewrite IH. tauto.
Qed.

Lemma last_split_space_aux n : forall l, List.length l <= n ->
  (last (split_space l) [] = [] <-> l = [] \/ exists l', l = l' ++ [SP]).
Proof.
  induction n as [|n IH]; intros l Hlen.
  - destruct l; [|simpl in Hlen; lia]. simpl. tauto.
  - destruct (span_space l) as (t & tail & -> & Ht & [-> | (r & ->)]).
    + rewrite app_nil_r. rewrite (split_space_free _ Ht). cbn [last].
      split; [auto|]. intros [H | (l' & H)]; [assumption|]. exfalso.
      subst t. apply Forall_app in Ht as [_ Ht]. inversion Ht; congruence.
    + rewrite (split_space_app_sp _ r Ht).
      assert (Hlast : last (t :: split_space r) [] = last (split_space r) []).
      { cbn [last]. destruct (split_space r) eqn:E; [now apply split_space_nonempty in E | reflexivity]. }
      rewrite Hlast, IH by (rewrite length_app in Hlen; simpl in Hlen; lia).
      split.
      * intros [-> | (r' & ->)]; right.
        -- exists t. reflexivity.
        -- exists (t ++ SP :: r'). rewrite <- app_assoc. reflexivity.
      * intros [H | (l' & H)]; [destruct t; discriminate|].
        destruct r as [|x r0]; [now left|].
        destruct (@exists_last _ (x :: r0) ltac:(discriminate)) as (r' & c & Heq).
        rewrite Heq in *. right. exists r'.
        change (t ++ SP :: r' ++ [c]) with (t ++ (SP :: r') ++ [c]) in H.
        rewrite app_assoc in H. apply app_inj_tail in H as [_ ->]. reflexivity.
Qed.

Lemma last_split_space l :
  last (split_space l) [] = [] <-> l = [] \/ last l NUL = SP.
Proof.
  rewrite (last_split_space_aux (List.length l) l (le_n _)).
  split; (intros [H | H]; [now left | right]).
  - destruct H as (l' & ->). apply last_last.
  - destruct l as [|x l]; [discriminate|].
    destruct (@exists_last _ (x :: l) ltac:(discriminate)) as (l' & c & Heq).
    rewrite Heq in *. rewrite last_last in H. subst c. now exists l'.
Qed.

Lemma length_list_ascii_of_string s :
  List.length (list_ascii_of_string s) = String.length s.
Proof. induction s; simpl; congruence. Qed.

Lemma in_tokens s e :
  In e (tokens s) <-> In (list_ascii_of_string e) (split_space (list_ascii_of_string s)).
Proof.
  unfold tokens. rewrite in_map_iff. split.
  - intros (x & <- & Hx). now rewrite list_ascii_of_string_of_list_ascii.
  - intros H. eexists. split; [|exact H]. apply string_of_list_ascii_of_string.
Qed.

(** The scan over well-formed strings, told from the pieces. *)
Lemma supportsExtension_static_walk s e :
  nul_free_string s -> nul_free_string e ->
  supportsExtension_static s (c_str e)
  = walk (S (String.length s)) (list_ascii_of_string e)
         (split_space (list_ascii_of_string s)).
Proof.
  intros Hs He. unfold supportsExtension_static, c_str.
  rewrite (strlen_c_array _ He).
  pose proof (loop_walk (list_ascii_of_string e)
                (S (List.length (list_ascii_of_string s ++ [NUL]))) []
                (list_ascii_of_string s) Hs) as H.
  cbn [app List.length] in H. rewrite H.
  - now rewrite length_list_ascii_of_string.
  - rewrite length_app. simpl. lia.
Qed.

(** The budget given to the loop is never used up: the pointer moves
    forward at every iteration and the loop stops once it leaves the array. *)
Lemma supportsExtension_loop_progress fuel : forall arr ext len p,
  List.length arr - p < fuel ->
  supportsExtension_loop fuel arr ext len p <> None.
Proof.
  induction fuel as [|fuel IH]; intros arr ext len p Hfuel; [lia|].
  cbn [supportsExtension_loop]. unfold deref.
  destruct (nth_error arr p) as [c|] eqn:Hp; [|discriminate].
  destruct (Ascii.eqb c NUL); [discriminate|].
  destruct (strcspn (skipn p arr) [SP]) as [n|]; [|discriminate].
  destruct (if Nat.eqb len n then _ else _) as [[|]|]; try discriminate.
  apply IH. assert (p < List.length arr) by (apply nth_error_Some; congruence). lia.
Qed.

Lemma supportsExtension_loop_stops fuel : forall arr ext len p,
  supportsExtension_loop fuel arr ext len p <> Some (Undefined NoProgress).
Proof.
  induction fuel as [|fuel IH]; intros arr ext len p; cbn [supportsExtension_loop];
    [discriminate|].
  destruct (deref arr p) as [c|]; [|discriminate].
  destruct (Ascii.eqb c NUL); [discriminate|].
  destruct (strcspn (skipn p arr) [SP]) as [n|]; [|discriminate].
  destruct (if Nat.eqb len n then _ else _) as [[|]|]; try discriminate. apply IH.
Qed.

Lemma supportsExtension_static_progress s ext :
  supportsExtension_static s ext <> Undefined NoProgress.
Proof.
  unfold supportsExtension_static. destruct (strlen ext) as [len|]; [|discriminate].
  pose proof (supportsExtension_loop_progress (S (List.length (c_str s))) (c_str s) ext len 0) as Hp.
  pose proof (supportsExtension_loop_stops (S (List.length (c_str s))) (c_str s) ext len 0) as Hs.
  destruct (supportsExtension_loop _ _ _ _ _) as [o|].
  - intros ->. now apply Hs.
  - exfalso. apply Hp; [lia | reflexivity].
Qed.

(** On a non-empty query the scan answers [true] exactly when a token of
    the extension string equals the query. *)
Lemma supportsExtension_static_true_iff s e :
  nul_free_string s -> nul_free_string e -> e <> ""%string ->
  (supportsExtension_static s (c_str e) = Ok true <-> In e (tokens s)).
Proof.
  intros Hs He Hne. rewrite (supportsExtension_static_walk s e Hs He), in_tokens.
  apply walk_true. intros H. apply Hne.
  rewrite <- (string_of_list_ascii_of_string e), H. reflexivity.
Qed.

(** [doubleSupport] is the extension query for [cl_khr_fp64]. *)
Lemma doubleSupport_is_supportsExtension this :
  Device.doubleSupport this = Device.supportsExtension "cl_khr_fp64" this.
Proof. reflexivity. Qed.

(** C8, as amended: for an extension string and a query without embedded
    terminators, the scan dereferences the element one past the terminator
    (index [length s + 1] of an array of [length s + 1] elements) exactly
    when the string is not empty, does not end with a space and none of its
    tokens equals the query; when the string is empty, ends with a space or
    has a token equal to the query, the scan stays inside the array and
    returns a boolean. *)
Theorem scan_out_of_bounds_iff (s e : string) :
  nul_free_string s -> nul_free_string e ->
  (supportsExtension_static s (c_str e) = Undefined (OutOfBounds (S (String.length s)))
   <-> s <> ""%string /\ ~ ends_with_space s /\ ~ In e (tokens s))
  /\ (s = ""%string \/ ends_with_space s \/ In e (tokens s) ->
      exists b, supportsExtension_static s (c_str e) = Ok b).
Proof.
  intros Hs He. rewrite (supportsExtension_static_walk s e Hs He).
  set (oob := S (String.length s)). set (le := list_ascii_of_string e).
  set (ls := list_ascii_of_string s).
  assert (Hoob : walk oob le (split_space ls) = Undefined (OutOfBounds oob)
                 <-> s <> ""%string /\ ~ ends_with_space s /\ ~ In e (tokens s)).
  { rewrite (walk_out_of_bounds oob le (split_space ls) (split_space_nonempty ls)).
    rewrite last_split_space, in_tokens. fold ls le. unfold ends_with_space. fold ls.
    assert (Hnil : ls = [] <-> s = ""%string).
    { subst ls. destruct s; simpl; split; congruence. }
    rewrite Hnil. tauto. }
  split; [exact Hoob|].
  intros Hin.
  destruct (walk_range oob le (split_space ls)) as [H | [H | H]]; eauto.
  apply Hoob in H. tauto.
Qed.

(** C8, witness: the amended statement at the two-token string and the
    query [cl_khr_fp]. *)
Lemma scan_out_of_bounds_iff_witness :
  nul_free_string "cl_khr_fp64 cl_khr_gl_sharing"
  /\ nul_free_string "cl_khr_fp"
  /\ supportsExtension_static "cl_khr_fp64 cl_khr_gl_sharing" (c_str "cl_khr_fp")
     = Undefined (OutOfBounds 30).
Proof.
  assert (Hs : nul_free_string "cl_khr_fp64 cl_khr_gl_sharing")
    by (repeat constructor; discriminate).
  assert (He : nul_free_string "cl_khr_fp") by (repeat constructor; discriminate).
  split; [exact Hs | split; [exact He|]].
  apply (proj1 (scan_out_of_bounds_iff "cl_khr_fp64 cl_khr_gl_sharing" "cl_khr_fp" Hs He)).
  split; [discriminate | split].
  - unfold ends_with_space. cbn. discriminate.
  - cbn. intros [H | [H | []]]; discriminate.
Defined.

(** C8, counterexample to the claim as stated: the string is not empty, does
    not end with a space and its final token differs from the query, yet the
    scan returns at the first token, inside the array, and the final token is
    never examined. *)
Lemma scan_returns_before_final_token :
  "cl_khr_fp64 cl_khr_gl_sharing"%string <> ""%string
  /\ ~ ends_with_space "cl_khr_fp64 cl_khr_gl_sharing"
  /\ last (tokens "cl_khr_fp64 cl_khr_gl_sharing") ""%string <> "cl_khr_fp64"%string
  /\ supportsExtension_static "cl_khr_fp64 cl_khr_gl_sharing" (c_str "cl_khr_fp64")
     = Ok true.
Proof.
  split; [discriminate | split; [|split]].
  - unfold ends_with_space. cbn. discriminate.
  - cbn. discriminate.
  - reflexivity.
Qed.

(** C3, the code at the failing input: a device reports the two extensions
    without a trailing space and is asked for [cl_khr_fp]; after the second
    token the scan pointer is 30, one past the terminator at 29, and the loop
    condition reads there instead of the function returning [false].  The same
    happens for the single stored token [cl_khr_fp64x] and the query
    [cl_khr_fp64]. *)
Theorem supportsExtension_partial_name_reads_past_the_end :
  supportsExtension_static "cl_khr_fp64 cl_khr_gl_sharing" (c_str "cl_khr_fp")
  = Undefined (OutOfBounds 30)
  /\ Device.supportsExtension "cl_khr_fp" sample_device (sample_runtime "OpenCL 1.2 Sample") []
     = (Undefined (OutOfBounds 30),
        [clGetDeviceInfo 1%N CL_DEVICE_EXTENSIONS 0 false true;
         clGetDeviceInfo 1%N CL_DEVICE_EXTENSIONS 30 true false])
  /\ supportsExtension_static "cl_khr_fp64x" (c_str "cl_khr_fp64")
     = Undefined (OutOfBounds 13)
  /\ supportsExtension_static "cl_khr_fp64 cl_khr_gl_sharing" (c_str "cl_khr_fp64") = Ok true
  /\ supportsExtension_static "cl_khr_fp64 cl_khr_gl_sharing" (c_str "cl_khr_gl_sharing")
     = Ok true.
Proof. repeat split; vm_compute; reflexivity. Qed.

End ScanFacts.

(** ** The version comparison *)

Section VersionFacts.
Local Open Scope Z_scope.

Lemma threshold_comparison (major minor : Z) :
  (major >? 1) || ((major =? 1) && (minor >? 1))
  = (major >? 1) || ((major =? 1) && (minor >=? 2)).
Proof.
  f_equal. f_equal. rewrite Z.gtb_ltb, Z.geb_leb.
  destruct (Z.ltb_spec 1 minor), (Z.leb_spec 2 minor); try reflexivity; lia.
Qed.

(** C6: on every version string the comparison of the reference-counting
    gate, [major > 1 || (major == 1 && minor > 1)] after the scan, and that of
    [supportsVersion] at major 1 and minor 2 end the same way: with the same
    boolean, or both outside defined behaviour when the scan is.  The gate
    that the destructor, the copy constructor and the assignment run is that
    comparison on the string the runtime wrote into its array. *)
Theorem gate_is_supportsVersion_1_2 :
  (forall version : string,
      supportsAtLeast1Point2_on (c_str version) = supportsVersion_on version 1 2)
  /\ (forall (native : Native) (tr : list native_call) (pl : cl_platform_id),
        let q := clGetPlatformInfo pl CL_PLATFORM_VERSION 128 true true in
        Device.supportsAtLeast1Point2 pl native tr
        = match written_string 128 (native tr q) with
          | Some version => (supportsVersion_on version 1 2, tr ++ [q])
          | None => (Undefined UninitializedRead, tr ++ [q])
          end).
Proof.
  assert (H : forall version : string,
             supportsAtLeast1Point2_on (c_str version) = supportsVersion_on version 1 2).
  { intros version. unfold supportsAtLeast1Point2_on, supportsVersion_on.
    destruct (sscanf (c_str version) "OpenCL %i.%i") as [vals | e | u]; cbn [outcome_bind];
      [|reflexivity|reflexivity].
    f_equal. apply threshold_comparison. }
  split; [exact H|].
  intros native tr pl q. unfold Device.supportsAtLeast1Point2, bind, call, lift,
    undefined_behaviour. fold q.
  destruct (written_string 128 (native tr q)) as [version|]; [|reflexivity].
  now rewrite H.
Qed.




















End VersionFacts.

(** ** Queries and lifetime *)

Section DeviceFacts.
Local Open Scope Z_scope.

Lemma run_never_throws ds : forall input e, run ds input <> Throw e.
Proof.
  induction ds as [|d ds IH]; intros input e; cbn [run]; [discriminate|].
  destruct d.
  - apply IH.
  - destruct input as [|c' rest]; [discriminate|].
    destruct (Ascii.eqb c c'); [apply IH | discriminate].
  - destruct (scan_i input) as [[v rest]|]; [|discriminate].
    destruct ((INT_MIN <=? v) && (v <=? INT_MAX)); [|discriminate].
    pose proof (IH rest) as H.
    destruct (run ds rest) as [vs|e'|u]; cbn [outcome_bind]; try discriminate.
    now elim (H e').
Qed.

Lemma supportsVersion_on_never_throws version major minor e :
  supportsVersion_on version major minor <> Throw e.
Proof.
  unfold supportsVersion_on, sscanf.
  pose proof (run_never_throws (parse_format (list_ascii_of_string "OpenCL %i.%i"))
                (until_nul (c_str version))) as H.
  destruct (run _ _) as [vs|e'|u]; cbn [outcome_bind]; try discriminate.
  now elim (H e').
Qed.

Lemma supportsExtension_loop_never_throws fuel arr ext len : forall p e,
  supportsExtension_loop fuel arr ext len p <> Some (Throw e).
Proof.
  induction fuel as [|fuel IH]; intros p e; cbn [supportsExtension_loop]; [discriminate|].
  destruct (deref arr p); [|discriminate].
  destruct (Ascii.eqb a NUL); [discriminate|].
  destruct (strcspn (skipn p arr) [SP]) as [n|]; [|discriminate].
  destruct (if Nat.eqb len n then _ else _) as [[|]|]; try discriminate. apply IH.
Qed.

Lemma supportsExtension_static_never_throws s ext e :
  supportsExtension_static s ext <> Throw e.
Proof.
  unfold supportsExtension_static. destruct (strlen ext); [|discriminate].
  pose proof (supportsExtension_loop_never_throws (S (List.length (c_str s))) (c_str s) ext n 0) as H.
  destruct (supportsExtension_loop _ _ _ _ _) as [o|]; [|discriminate].
  intros ->. now apply (H e).
Qed.

Ltac run_query :=
  unfold Device.discard, Device.maxComputeUnits, Device.maxWorkItemDim,
    Device.maxWorkGroupSize, Device.maxConstantBufferSize, Device.maxMemAllocSize,
    Device.globalMemSize, Device.localMemSize, Device.query_scalar,
    Device.maxWorkItemSizes, Device.imageSupport, Device.platform,
    Device.doubleSupport, Device.supportsExtension, Device.supportsVersion,
    Device.version, Device.name, Device.vendor, Device.extensions,
    Device.getDeviceInfo, read_scalar, read_handle, OPENCL_SAFE_CALL,
    bind, call, ret, throw, undefined_behaviour, lift;
  cbn [Device.id Device.empty _id fst snd].

Ltac split_cases :=
  repeat match goal with
    | |- context [if ?b then _ else _] => destruct b eqn:?
    | |- context [match data ?r with _ => _ end] => destruct (data r)
    | |- context [match written_string ?n ?r with _ => _ end] => destruct (written_string n r)
    | |- context [match ?o with Ok _ => _ | Throw _ => _ | Undefined _ => _ end] =>
        destruct o eqn:?
    end; cbn [fst snd].

(** C1, as amended: there is no check of the handle before a capability
    query.  On the empty handle every capability query passes the null
    identifier to the runtime, its first native call being a device-info
    query on identifier 0, and when the query ends in an error, that error is
    a native status other than success or the missing platform. *)
Theorem empty_handle_queries_reach_the_runtime (major minor : Z) (ext : string) :
  Forall (fun q : string * (Device -> M unit) =>
            forall (native : Native) (tr : list native_call),
              (exists info size buf sret rest,
                  snd (snd q Device.empty native tr)
                  = tr ++ clGetDeviceInfo 0%N info size buf sret :: rest)
              /\ (forall e, fst (snd q Device.empty native tr) = Throw e ->
                            thrown_by_runtime_or_platform e))
         (Device.capability_queries major minor ext).
Proof.
  unfold Device.capability_queries.
  repeat (apply Forall_cons; [|]); [.. | apply Forall_nil];
    intros native tr; cbn [snd]; run_query; split.
  all: try (split_cases; rewrite <- ?app_assoc; repeat eexists; reflexivity).
  all: intros e; split_cases; intros He; try discriminate.
  all: try (injection He as <-; first
        [ left; eexists; split; [reflexivity | now apply Z.eqb_neq]
        | right; reflexivity ]).
  all: try (exfalso; match goal with
        | H : supportsVersion_on _ _ _ = Throw _ |- _ => exact (supportsVersion_on_never_throws _ _ _ _ H)
        | H : supportsExtension_static _ _ = Throw _ |- _ => exact (supportsExtension_static_never_throws _ _ _ H)
        end).
Qed.

(** C1, witness: the amended statement at [maxComputeUnits] and a runtime that
    refuses the null device. *)
Lemma empty_handle_queries_reach_the_runtime_witness :
  fst (Device.discard (Device.maxComputeUnits Device.empty)
         (sample_runtime "OpenCL 1.2 Sample") [])
  = Throw (NativeApiError CL_INVALID_DEVICE)
  /\ thrown_by_runtime_or_platform (NativeApiError CL_INVALID_DEVICE).
Proof.
  split; [reflexivity|].
  apply (proj2 (Forall_inv (empty_handle_queries_reach_the_runtime 1 2 "cl_khr_fp64")
                  (sample_runtime "OpenCL 1.2 Sample") [])).
  reflexivity.
Defined.

(** C1, counterexample to the claim as stated: [maxComputeUnits] on the empty
    handle issues the device-info call with the null identifier and reports
    the status the runtime answers with. *)
Lemma maxComputeUnits_on_empty_handle :
  Device.maxComputeUnits Device.empty (sample_runtime "OpenCL 1.2 Sample") []
  = (Throw (NativeApiError CL_INVALID_DEVICE),
     [clGetDeviceInfo 0%N CL_DEVICE_MAX_COMPUTE_UNITS 4 true false]).
Proof. reflexivity. Qed.

End DeviceFacts.

Section LifetimeFacts.
Local Open Scope Z_scope.

Ltac run_device :=
  unfold Device.dtor, Device.release_if_supported, Device.retain_if_supported,
    Device.supportsAtLeast1Point2, Device.platform, Device.getDeviceInfo,
    Device.setId, read_handle, OPENCL_SAFE_CALL,
    bind, call, ret, throw, undefined_behaviour, lift;
  cbn [Device.id _id _type fst snd].

(** C10: [setId] stores the new identifier and nothing else: no native call
    is made, so no retain, and the category stays as it was, whatever device
    the new identifier names. *)
Theorem setId_only_stores_the_identifier (native : Native) (tr : list native_call)
  (this : Device) (id : cl_device_id) :
  exists this', Device.setId id this native tr = (Ok this', tr)
                /\ _id this' = id /\ _type this' = _type this.
Proof. eexists. split; [reflexivity | split; reflexivity]. Qed.

(** C9: two handles are equal exactly when their identifiers are; equality
    is reflexive and symmetric and does not look at the categories (a handle
    holds no count of references); a handle equals a raw identifier exactly
    when it stores it; and both [!=] are the negations of the [==]. *)
Theorem equality_is_by_identifier (a b : Device) (raw : cl_device_id) :
  (Device.eq a b = true <-> _id a = _id b)
  /\ Device.eq a a = true
  /\ Device.eq a b = Device.eq b a
  /\ (forall ta tb : DeviceType,
        Device.eq {| _id := _id a; _type := ta |} {| _id := _id b; _type := tb |}
        = Device.eq a b)
  /\ (Device.eq_id a raw = true <-> _id a = raw)
  /\ Device.ne a b = negb (Device.eq a b)
  /\ Device.ne_id a raw = negb (Device.eq_id a raw).
Proof.
  unfold Device.eq, Device.ne, Device.eq_id, Device.ne_id, Device.id. cbn [_id].
  repeat split; try reflexivity.
  - intros H. apply N.eqb_eq in H. congruence.
  - intros H. apply N.eqb_eq. congruence.
  - apply N.eqb_refl.
  - apply N.eqb_sym.
  - intros H. apply N.eqb_eq in H. congruence.
  - intros H. apply N.eqb_eq. congruence.
Qed.

(** C7: when the platform query on a handle with a non-null identifier
    succeeds and hands back the null platform, [platform] throws the runtime
    error "platform not found", which is not the native-API error; and
    [platform] never returns the null platform. *)
Theorem platform_not_found (native : Native) (tr : list native_call) (this : Device) :
  let q := clGetDeviceInfo (_id this) CL_DEVICE_PLATFORM 8 true false in
  (_id this <> 0%N ->
   status (native tr q) = CL_SUCCESS ->
   data (native tr q) = Handle 0 ->
   Device.platform this native tr = (Throw (runtime_error "platform not found"), tr ++ [q]))
  /\ (forall st, runtime_error "platform not found" <> NativeApiError st)
  /\ (forall pl, fst (Device.platform this native tr) = Ok pl -> pl <> 0%N).
Proof.
  intros q. repeat split.
  - intros _ Hst Hd. subst q. run_device. unfold Device.id. rewrite Hst, Hd. reflexivity.
  - discriminate.
  - intros pl. subst q. run_device. unfold Device.id.
    destruct (status (native tr _) =? CL_SUCCESS); [|discriminate].
    destruct (data (native tr _)); try discriminate.
    destruct (N.eqb_spec h 0); [discriminate|]. cbn [fst]. congruence.
Qed.

(** C7, witness: a runtime without platforms. *)
Lemma platform_not_found_witness :
  _id sample_device <> 0%N
  /\ Device.platform sample_device orphan_runtime []
     = (Throw (runtime_error "platform not found"),
        [clGetDeviceInfo 1%N CL_DEVICE_PLATFORM 8 true false]).
Proof.
  split; [discriminate|].
  apply (proj1 (platform_not_found orphan_runtime [] sample_device));
    [discriminate | reflexivity | reflexivity].
Defined.

(** C5, as amended: every string query on a device (name, vendor, version,
    extensions) goes through [getDeviceInfo], which first asks for the length
    with no array and then, if that succeeded, fills an array of exactly the
    length reported; the platform version read by the reference-counting gate
    is a single call with an array of 128 characters. *)
Theorem string_queries_calls (native : Native) (tr : list native_call) :
  (forall (id : cl_device_id) (info : cl_device_info),
      let ask := clGetDeviceInfo id info 0 false true in
      let fill := clGetDeviceInfo id info (size_ret (native tr ask)) true false in
      snd (Device.getDeviceInfo id info native tr)
      = (if status (native tr ask) =? CL_SUCCESS then tr ++ [ask; fill] else tr ++ [ask])
      /\ two_step_query native tr [ask; fill])
  /\ (forall this : Device,
        Device.name this = Device.getDeviceInfo (_id this) CL_DEVICE_NAME
        /\ Device.vendor this = Device.getDeviceInfo (_id this) CL_DEVICE_VENDOR
        /\ Device.version this = Device.getDeviceInfo (_id this) CL_DEVICE_VERSION
        /\ Device.extensions this = Device.getDeviceInfo (_id this) CL_DEVICE_EXTENSIONS)
  /\ (forall pl : cl_platform_id,
        snd (Device.supportsAtLeast1Point2 pl native tr)
        = tr ++ [clGetPlatformInfo pl CL_PLATFORM_VERSION 128 true true]).
Proof.
  repeat split.
  - run_device.
    destruct (status (native tr _) =? CL_SUCCESS); [|reflexivity].
    destruct (status (native (tr ++ _) _) =? CL_SUCCESS); cbn [fst snd];
      [destruct (written_string _ _)|]; rewrite <- app_assoc; reflexivity.
  - intros pl. run_device. destruct (written_string _ _); reflexivity.
Qed.

(** C5, counterexample to the claim as stated: the platform version, 18
    characters with its terminator, is read by one call with a size of 128. *)
Lemma gate_is_not_two_step :
  Device.supportsAtLeast1Point2 7%N (sample_runtime "OpenCL 1.2 Sample") []
  = (Ok true, [clGetPlatformInfo 7%N CL_PLATFORM_VERSION 128 true true])
  /\ ~ two_step_query (sample_runtime "OpenCL 1.2 Sample") []
        [clGetPlatformInfo 7%N CL_PLATFORM_VERSION 128 true true].
Proof. split; [reflexivity | intros H; exact H]. Qed.

(** C4: destroying an empty handle does nothing; in a build without
    [OPENCL_V1_2] a non-empty handle is cleared without any call; with it,
    the platform of the still-bound identifier is asked first, then its
    version, and on a version of at least 1.2 exactly one release of the
    identifier follows before the identifier is set to null, while on an older
    version no release is made.  Whatever the runtime answers there is at
    most one release, and destroying the cleared handle again makes no
    call. *)
Theorem dtor_releases_once (native : Native) (tr : list native_call) (this : Device) :
  (_id this = 0%N ->
   forall v12, Device.dtor v12 this native tr = (Ok this, tr))
  /\ (_id this <> 0%N ->
      Device.dtor false this native tr = (Ok {| _id := 0%N; _type := _type this |}, tr))
  /\ (forall (pl : cl_platform_id) (s : string),
        let q1 := clGetDeviceInfo (_id this) CL_DEVICE_PLATFORM 8 true false in
        let q2 := clGetPlatformInfo pl CL_PLATFORM_VERSION 128 true true in
        let q3 := clReleaseDevice (_id this) in
        _id this <> 0%N ->
        status (native tr q1) = CL_SUCCESS ->
        data (native tr q1) = Handle pl ->
        pl <> 0%N ->
        written_string 128 (native (tr ++ [q1]) q2) = Some s ->
        (supportsAtLeast1Point2_on (c_str s) = Ok true ->
         status (native (tr ++ [q1; q2]) q3) = CL_SUCCESS ->
         Device.dtor true this native tr
         = (Ok {| _id := 0%N; _type := _type this |}, tr ++ [q1; q2; q3]))
        /\ (supportsAtLeast1Point2_on (c_str s) = Ok false ->
            Device.dtor true this native tr
            = (Ok {| _id := 0%N; _type := _type this |}, tr ++ [q1; q2])))
  /\ (forall v12, exists calls,
        snd (Device.dtor v12 this native tr) = tr ++ calls
        /\ (releases calls = [] \/
            (_id this <> 0%N /\ releases calls = [clReleaseDevice (_id this)])))
  /\ (forall v12 this',
        fst (Device.dtor v12 this native tr) = Ok this' ->
        _id this' = 0%N
        /\ forall native' tr', Device.dtor v12 this' native' tr' = (Ok this', tr')).
Proof.
  split; [|split; [|split; [|split]]].
  - intros H v12. unfold Device.dtor. rewrite H. reflexivity.
  - intros H. unfold Device.dtor. apply N.eqb_neq in H. rewrite H. reflexivity.
  - intros pl s q1 q2 q3 Hid Hst Hd Hpl Hw. subst q1 q2 q3.
    apply N.eqb_neq in Hid, Hpl.
    split; [intros Hgate Hrel | intros Hgate]; run_device; unfold Device.id;
      rewrite Hid; cbv beta iota delta [negb];
      rewrite Hst, Z.eqb_refl; cbv beta iota;
      rewrite Hd; cbv beta iota; rewrite Hpl; cbv beta iota;
      rewrite Hw; cbv beta iota; rewrite Hgate; cbv beta iota.
    + rewrite <- (app_assoc tr [_] [_]). cbn [app]. rewrite Hrel, Z.eqb_refl.
      rewrite <- app_assoc. reflexivity.
    + rewrite <- app_assoc. reflexivity.
  - intros v12. destruct (N.eqb_spec (_id this) 0) as [Hz|Hnz].
    + exists []. unfold Device.dtor. rewrite Hz. cbn. rewrite app_nil_r. auto.
    + destruct v12.
      * run_device. unfold Device.id.
        rewrite (proj2 (N.eqb_neq _ _) Hnz). cbn [negb].
        repeat match goal with
          | |- context [if ?b then _ else _] => destruct b eqn:?
          | |- context [match data ?r with _ => _ end] => destruct (data r)
          | |- context [match written_string ?n ?r with _ => _ end] =>
              destruct (written_string n r)
          | |- context [match ?o with Ok _ => _ | Throw _ => _ | Undefined _ => _ end] =>
              destruct o eqn:?
          end; cbn [fst snd]; rewrite <- ?app_assoc; cbn [app];
          eexists; (split; [reflexivity|]); cbn; auto.
      * exists []. unfold Device.dtor. rewrite (proj2 (N.eqb_neq _ _) Hnz). cbn.
        rewrite app_nil_r. auto.
  - intros v12 this' H.
    assert (Hz : _id this' = 0%N).
    { revert H. unfold Device.dtor. destruct (N.eqb_spec (_id this) 0) as [Hz|Hnz]; cbn [negb].
      - cbn. intros [= <-]. exact Hz.
      - unfold bind. destruct (Device.release_if_supported v12 this native tr) as [[[]|e|u] tr'];
          cbn; try discriminate. intros [= <-]. reflexivity. }
    split; [exact Hz|]. intros native' tr'. unfold Device.dtor. rewrite Hz. reflexivity.
Qed.

(** C4, witness: a device of a 1.2 platform and of a 1.1 platform. *)
Lemma dtor_releases_once_witness :
  Device.dtor true sample_device (sample_runtime "OpenCL 1.2 Sample") []
  = (Ok {| _id := 0%N; _type := GPU |},
     [clGetDeviceInfo 1%N CL_DEVICE_PLATFORM 8 true false;
      clGetPlatformInfo 7%N CL_PLATFORM_VERSION 128 true true;
      clReleaseDevice 1%N])
  /\ Device.dtor true sample_device (sample_runtime "OpenCL 1.1 Sample") []
     = (Ok {| _id := 0%N; _type := GPU |},
        [clGetDeviceInfo 1%N CL_DEVICE_PLATFORM 8 true false;
         clGetPlatformInfo 7%N CL_PLATFORM_VERSION 128 true true]).
Proof.
  split.
  - apply (proj1 (proj1 (proj2 (proj2
             (dtor_releases_once (sample_runtime "OpenCL 1.2 Sample") [] sample_device)))
             7%N "OpenCL 1.2 Sample"%string
             ltac:(discriminate) eq_refl eq_refl ltac:(discriminate) eq_refl));
      reflexivity.
  - apply (proj2 (proj1 (proj2 (proj2
             (dtor_releases_once (sample_runtime "OpenCL 1.1 Sample") [] sample_device)))
             7%N "OpenCL 1.1 Sample"%string
             ltac:(discriminate) eq_refl eq_refl ltac:(discriminate) eq_refl));
      reflexivity.
Defined.

End LifetimeFacts.

(** * Further facts *)

Section MoreScanFacts.
Local Open Scope nat_scope.

Lemma walk_false oob e ts :
  ts <> [] ->
  (walk oob e ts = Ok false <-> last ts [] = [] /\ walk oob e ts <> Ok true).
Proof.
  intros Hts.
  destruct (walk_range oob e ts) as [H | [H | H]]; rewrite H.
  - split; [discriminate | intros [_ Hn]; now elim Hn].
  - split; [|reflexivity]. intros _. split; [|discriminate].
    destruct (list_eq_dec ascii_dec (last ts []) []) as [Hl|Hl]; [exact Hl|].
    exfalso.
    assert (Hin : ~ In e ts \/ In e ts) by (destruct (in_dec (list_eq_dec ascii_dec) e ts); auto).
    destruct Hin as [Hin|Hin].
    + assert (Ho : walk oob e ts = Undefined (OutOfBounds oob))
        by (apply walk_out_of_bounds; auto).
      congruence.
    + clear Hts. induction ts as [|t ts IH]; [contradiction|].
      cbn [walk] in H. destruct ts as [|t' ts].
      * destruct t as [|a t]; [now apply Hl|].
        destruct Hin as [<-|[]].
        destruct (list_ascii_eqb_spec (a :: t) (a :: t)); [discriminate | congruence].
      * assert (Hw : (if list_ascii_eqb t e then Ok true else walk oob e (t' :: ts)) = Ok false)
          by (destruct t; exact H).
        destruct (list_ascii_eqb_spec t e) as [Heq|Hne]; [discriminate|].
        apply IH; [exact Hw | exact Hl | destruct Hin; [contradiction | assumption]].
  - split; [discriminate|]. intros [Hl _]. exfalso.
    apply walk_out_of_bounds in H; [|exact Hts]. tauto.
Qed.

Lemma walk_empty_query oob ts :
  walk oob [] ts = Ok true <-> In [] (removelast ts).
Proof.
  induction ts as [|t ts IH]; [cbn; split; [discriminate | tauto]|].
  destruct ts as [|t' ts].
  - cbn [walk removelast In]. destruct t as [|a t].
    + split; [discriminate | tauto].
    + destruct (list_ascii_eqb_spec (a :: t) []); [discriminate|].
      cbn [walk]. split; [discriminate | tauto].
  - change (removelast (t :: t' :: ts)) with (t :: removelast (t' :: ts)).
    assert (Hw : walk oob [] (t :: t' :: ts)
                 = if list_ascii_eqb t [] then Ok true else walk oob [] (t' :: ts))
      by (cbn [walk]; destruct t; reflexivity).
    rewrite Hw. cbn [In]. destruct (list_ascii_eqb_spec t []) as [->|Hne]; [tauto|].
    rewrite IH. split; [auto | intros [H|H]; [contradiction | exact H]].
Qed.

Lemma strlen_terminated e : strlen (e ++ [NUL]) <> None.
Proof.
  induction e as [|c e IH]; cbn [app strlen]; [discriminate|].
  destruct (Ascii.eqb c NUL); [discriminate|].
  destruct (strlen (e ++ [NUL])); [discriminate | contradiction].
Qed.

(** X1: for an extension string and a non-empty query without embedded
    terminators, the scan returns [true] exactly when the query equals one of
    the space-separated tokens, and returns [false] exactly when no token
    equals it and the string is empty or ends with a space. *)
Theorem scan_answers (s e : string) :
  nul_free_string s -> nul_free_string e -> e <> ""%string ->
  (supportsExtension_static s (c_str e) = Ok true <-> In e (tokens s))
  /\ (supportsExtension_static s (c_str e) = Ok false
      <-> (s = ""%string \/ ends_with_space s) /\ ~ In e (tokens s)).
Proof.
  intros Hs He Hne. rewrite (supportsExtension_static_walk s e Hs He).
  set (oob := S (String.length s)). set (le := list_ascii_of_string e).
  set (ls := list_ascii_of_string s).
  assert (Hle : le <> []).
  { intros H. apply Hne. rewrite <- (string_of_list_ascii_of_string e). fold le.
    rewrite H. reflexivity. }
  assert (Htrue : walk oob le (split_space ls) = Ok true <-> In e (tokens s))
    by (rewrite in_tokens; apply walk_true; exact Hle).
  split; [exact Htrue|].
  rewrite (walk_false oob le (split_space ls) (split_space_nonempty ls)).
  rewrite last_split_space, Htrue. unfold ends_with_space. fold ls.
  assert (Hnil : ls = [] <-> s = ""%string).
  { subst ls. destruct s; simpl; split; congruence. }
  rewrite Hnil. tauto.
Qed.

(** X1, witness: a list with a trailing space and a partial name. *)
Lemma scan_answers_witness :
  supportsExtension_static "cl_khr_fp64 cl_khr_gl_sharing " (c_str "cl_khr_fp") = Ok false.
Proof.
  assert (Hs : nul_free_string "cl_khr_fp64 cl_khr_gl_sharing ")
    by (repeat constructor; discriminate).
  assert (He : nul_free_string "cl_khr_fp") by (repeat constructor; discriminate).
  apply (proj2 (scan_answers "cl_khr_fp64 cl_khr_gl_sharing " "cl_khr_fp" Hs He
                  ltac:(discriminate))).
  split.
  - right. reflexivity.
  - cbn. intros [H | [H | [H | []]]]; discriminate.
Defined.

Lemma removelast_map {A B} (f : A -> B) l : removelast (map f l) = map f (removelast l).
Proof.
  induction l as [|x l IH]; [reflexivity|].
  destruct l as [|y l]; [reflexivity|].
  change (removelast (map f (x :: y :: l))) with (f x :: removelast (map f (y :: l))).
  now rewrite IH.
Qed.

(** X2: on the empty extension string the scan returns [false] for every
    query; the empty query is answered [true] exactly when the string has an
    empty piece before its last one, a leading space or two spaces in a
    row. *)
Theorem scan_empty_inputs :
  (forall e : string, supportsExtension_static "" (c_str e) = Ok false)
  /\ (forall s : string, nul_free_string s ->
        (supportsExtension_static s (c_str "") = Ok true
         <-> In ""%string (removelast (tokens s)))).
Proof.
  split.
  - intros e. unfold supportsExtension_static, c_str.
    destruct (strlen (list_ascii_of_string e ++ [NUL])) eqn:E;
      [reflexivity | now apply strlen_terminated in E].
  - intros s Hs.
    rewrite (supportsExtension_static_walk s "" Hs (Forall_nil _)).
    cbn [list_ascii_of_string]. rewrite walk_empty_query. unfold tokens.
    rewrite removelast_map, in_map_iff. split.
    + intros H. exists []. split; [reflexivity | exact H].
    + intros (x & Hx & Hin). destruct x; [exact Hin | discriminate].
Qed.

(** X2, witness: two spaces in a row. *)
Lemma scan_empty_inputs_witness :
  supportsExtension_static "cl_khr_fp64  cl_khr_gl_sharing" (c_str "") = Ok true.
Proof.
  apply (proj2 scan_empty_inputs "cl_khr_fp64  cl_khr_gl_sharing"%string).
  - repeat constructor; discriminate.
  - cbn. auto.
Defined.
End MoreScanFacts.

Section MoreQueryFacts.
Local Open Scope Z_scope.

Ltac run_m :=
  unfold Device.discard, Device.maxComputeUnits, Device.maxWorkItemDim,
    Device.maxWorkGroupSize, Device.maxConstantBufferSize, Device.maxMemAllocSize,
    Device.globalMemSize, Device.localMemSize, Device.query_scalar,
    Device.maxWorkItemSizes, Device.imageSupport, Device.platform,
    Device.doubleSupport, Device.supportsExtension, Device.supportsVersion,
    Device.version, Device.name, Device.vendor, Device.extensions,
    Device.getDeviceInfo, Device.ctor, Device.supportsAtLeast1Point2,
    read_scalar, read_handle, OPENCL_SAFE_CALL,
    bind, call, ret, throw, undefined_behaviour, lift;
  cbn [Device.id _id _type fst snd].

Lemma status_eqb_false (st : cl_int) : st <> CL_SUCCESS -> (st =? CL_SUCCESS) = false.
Proof. apply Z.eqb_neq. Qed.

Lemma until_nul_nul_free l : nul_free (until_nul l).
Proof.
  induction l as [|c l IH]; cbn [until_nul]; [constructor|].
  destruct (Ascii.eqb_spec c NUL); [constructor | now constructor].
Qed.

Lemma until_nul_length l : (List.length (until_nul l) <= List.length l)%nat.
Proof.
  induction l as [|c l IH]; cbn [until_nul]; [reflexivity|].
  destruct (Ascii.eqb c NUL); cbn [List.length]; lia.
Qed.

Lemma until_nul_c_str_nul_free s :
  nul_free_string s -> until_nul (c_str s) = list_ascii_of_string s.
Proof.
  unfold nul_free_string, c_str.
  induction 1 as [|c l Hc Hl IH]; [reflexivity|].
  cbn [app until_nul]. now rewrite (proj2 (Ascii.eqb_neq c NUL) Hc), IH.
Qed.

Lemma until_nul_c_str_length s :
  (List.length (until_nul (c_str s)) <= String.length s)%nat.
Proof.
  unfold c_str. rewrite <- length_list_ascii_of_string.
  induction (list_ascii_of_string s) as [|c l IH]; [cbn; lia|].
  cbn [app until_nul]. destruct (Ascii.eqb c NUL); cbn [List.length]; lia.
Qed.

(** What a string query that returns has gone through. *)
Lemma getDeviceInfo_returns native tr id info s :
  fst (Device.getDeviceInfo id info native tr) = Ok s ->
  let ask := clGetDeviceInfo id info 0 false true in
  let fill := clGetDeviceInfo id info (size_ret (native tr ask)) true false in
  status (native tr ask) = CL_SUCCESS
  /\ status (native (tr ++ [ask]) fill) = CL_SUCCESS
  /\ exists w, written_string (size_ret (native tr ask)) (native (tr ++ [ask]) fill) = Some w
               /\ s = string_of_list_ascii (until_nul (c_str w)).
Proof.
  intros H ask fill. revert H. run_m. fold ask. fold fill. intros H.
  destruct (Z.eqb_spec (status (native tr ask)) CL_SUCCESS) as [H1|]; [|discriminate].
  destruct (Z.eqb_spec (status (native (tr ++ [ask]) fill)) CL_SUCCESS) as [H2|];
    [|discriminate].
  destruct (written_string _ _) as [w|]; [|discriminate].
  cbn [fst] in H. injection H as <-. eauto.
Qed.

(** X4: a string that [getDeviceInfo] returns has no embedded terminator,
    fits with its terminator the size the first call reported, and was
    obtained with exactly the two calls, ask then fill. *)
Theorem getDeviceInfo_result_fits (native : Native) (tr : list native_call)
  (id : cl_device_id) (info : cl_device_info) (s : string) :
  fst (Device.getDeviceInfo id info native tr) = Ok s ->
  nul_free_string s
  /\ (N.of_nat (String.length s) + 1 <= size_ret (native tr (clGetDeviceInfo id info 0 false true)))%N
  /\ snd (Device.getDeviceInfo id info native tr)
     = tr ++ [clGetDeviceInfo id info 0 false true;
              clGetDeviceInfo id info
                (size_ret (native tr (clGetDeviceInfo id info 0 false true))) true false].
Proof.
  intros H. destruct (getDeviceInfo_returns native tr id info s H) as (H1 & H2 & w & Hw & ->).
  split; [|split].
  - unfold nul_free_string. rewrite list_ascii_of_string_of_list_ascii.
    apply until_nul_nul_free.
  - unfold written_string in Hw. destruct (data _); try discriminate.
    destruct (N.leb_spec (N.of_nat (String.length s) + 1)
                (size_ret (native tr (clGetDeviceInfo id info 0 false true)))) as [Hle|];
      [|discriminate].
    injection Hw as ->.
    pose proof (until_nul_c_str_length w) as Hlen.
    rewrite <- (length_list_ascii_of_string (string_of_list_ascii _)).
    rewrite list_ascii_of_string_of_list_ascii. lia.
  - run_m. rewrite H1, Z.eqb_refl. cbv beta iota. rewrite H2, Z.eqb_refl. cbv beta iota.
    rewrite Hw. cbn [snd]. rewrite <- app_assoc. reflexivity.
Qed.

(** X4, witness: the name of the sample device. *)
Lemma getDeviceInfo_result_fits_witness :
  nul_free_string "Sample Device"
  /\ (N.of_nat (String.length "Sample Device") + 1 <= 14)%N.
Proof.
  pose proof (getDeviceInfo_result_fits (sample_runtime "OpenCL 1.2 Sample") []
                1%N CL_DEVICE_NAME "Sample Device" eq_refl) as H.
  exact (conj (proj1 H) (proj1 (proj2 H))).
Defined.

(** X5: when the size query of [getDeviceInfo] is refused, its status is
    thrown and no second call is made; when the fill is refused, its status
    is thrown after the two calls; nothing else is ever thrown. *)
Theorem getDeviceInfo_errors (native : Native) (tr : list native_call)
  (id : cl_device_id) (info : cl_device_info) :
  let ask := clGetDeviceInfo id info 0 false true in
  let fill := clGetDeviceInfo id info (size_ret (native tr ask)) true false in
  (status (native tr ask) <> CL_SUCCESS ->
   Device.getDeviceInfo id info native tr
   = (Throw (NativeApiError (status (native tr ask))), tr ++ [ask]))
  /\ (status (native tr ask) = CL_SUCCESS ->
      status (native (tr ++ [ask]) fill) <> CL_SUCCESS ->
      Device.getDeviceInfo id info native tr
      = (Throw (NativeApiError (status (native (tr ++ [ask]) fill))), tr ++ [ask; fill]))
  /\ (forall e, fst (Device.getDeviceInfo id info native tr) = Throw e ->
        exists st, e = NativeApiError st /\ st <> CL_SUCCESS).
Proof.
  intros ask fill. split; [|split].
  - intros H. run_m. fold ask. now rewrite (status_eqb_false _ H).
  - intros H1 H2. run_m. fold ask. rewrite H1, Z.eqb_refl. cbv beta iota. fold fill.
    rewrite (status_eqb_false _ H2), <- app_assoc. reflexivity.
  - intros e. run_m. fold ask.
    destruct (Z.eqb_spec (status (native tr ask)) CL_SUCCESS) as [H1|H1].
    + cbn [fst snd]. fold fill.
      destruct (Z.eqb_spec (status (native (tr ++ [ask]) fill)) CL_SUCCESS) as [H2|H2].
      * destruct (written_string _ _); discriminate.
      * cbn [fst]. intros [= <-]. eauto.
    + cbn [fst]. intros [= <-]. eauto.
Qed.

(** X5, witness: the null device, refused. *)
Lemma getDeviceInfo_errors_witness :
  Device.getDeviceInfo 0%N CL_DEVICE_NAME (sample_runtime "OpenCL 1.2 Sample") []
  = (Throw (NativeApiError CL_INVALID_DEVICE), [clGetDeviceInfo 0%N CL_DEVICE_NAME 0 false true]).
Proof.
  apply (proj1 (getDeviceInfo_errors (sample_runtime "OpenCL 1.2 Sample") [] 0%N CL_DEVICE_NAME)).
  discriminate.
Defined.

(** X6: when the runtime reports the length of a string plus one for the
    terminator and then writes that string, [getDeviceInfo] returns the
    string unchanged: the array of exactly the reported size is enough. *)
Theorem getDeviceInfo_round_trip (native : Native) (tr : list native_call)
  (id : cl_device_id) (info : cl_device_info) (s : string) :
  let ask := clGetDeviceInfo id info 0 false true in
  let fill := clGetDeviceInfo id info (N.of_nat (String.length s) + 1) true false in
  nul_free_string s ->
  status (native tr ask) = CL_SUCCESS ->
  size_ret (native tr ask) = (N.of_nat (String.length s) + 1)%N ->
  status (native (tr ++ [ask]) fill) = CL_SUCCESS ->
  data (native (tr ++ [ask]) fill) = Chars s ->
  Device.getDeviceInfo id info native tr = (Ok s, tr ++ [ask; fill]).
Proof.
  intros ask fill Hs H1 Hsz H2 Hd. run_m. fold ask. rewrite H1, Z.eqb_refl, Hsz.
  cbv beta iota. fold fill. rewrite H2, Z.eqb_refl. cbv beta iota.
  unfold written_string. rewrite Hd.
  rewrite N.leb_refl, (until_nul_c_str_nul_free s Hs), string_of_list_ascii_of_string.
  rewrite <- app_assoc. reflexivity.
Qed.

(** X6, witness: the vendor of the sample device. *)
Lemma getDeviceInfo_round_trip_witness :
  Device.getDeviceInfo 1%N CL_DEVICE_VENDOR (sample_runtime "OpenCL 1.2 Sample") []
  = (Ok "Sample Vendor"%string,
     [clGetDeviceInfo 1%N CL_DEVICE_VENDOR 0 false true;
      clGetDeviceInfo 1%N CL_DEVICE_VENDOR 14 true false]).
Proof.
  apply (getDeviceInfo_round_trip (sample_runtime "OpenCL 1.2 Sample") [] 1%N
           CL_DEVICE_VENDOR "Sample Vendor");
    [repeat constructor; discriminate | reflexivity ..].
Defined.

(** X3: the member [supportsExtension] answers from the list that
    [extensions ()] returns: for a non-empty name it yields [true] exactly
    when the name is a token of that list, and it makes no native call
    beyond those of [extensions ()]. *)
Theorem supportsExtension_reports_tokens (native : Native) (tr : list native_call)
  (this : Device) (ext s : string) :
  nul_free_string ext -> ext <> ""%string ->
  fst (Device.extensions this native tr) = Ok s ->
  (fst (Device.supportsExtension ext this native tr) = Ok true <-> In ext (tokens s))
  /\ snd (Device.supportsExtension ext this native tr)
     = snd (Device.extensions this native tr).
Proof.
  intros Hext Hne Hs.
  assert (Hnul : nul_free_string s).
  { unfold Device.extensions in Hs.
    destruct (getDeviceInfo_returns native tr _ _ s Hs) as (_ & _ & w & _ & ->).
    unfold nul_free_string. rewrite list_ascii_of_string_of_list_ascii.
    apply until_nul_nul_free. }
  unfold Device.supportsExtension, bind, lift.
  destruct (Device.extensions this native tr) as [[s'|e|u] tr'] eqn:E;
    cbn [fst snd] in *; try discriminate.
  injection Hs as ->. split; [|reflexivity].
  apply supportsExtension_static_true_iff; assumption.
Qed.

(** X3, witness: the second token of the sample list. *)
Lemma supportsExtension_reports_tokens_witness :
  fst (Device.supportsExtension "cl_khr_gl_sharing" sample_device
         (sample_runtime "OpenCL 1.2 Sample") []) = Ok true.
Proof.
  apply (proj1 (supportsExtension_reports_tokens (sample_runtime "OpenCL 1.2 Sample") []
                  sample_device "cl_khr_gl_sharing" "cl_khr_fp64 cl_khr_gl_sharing"
                  ltac:(repeat constructor; discriminate) ltac:(discriminate) eq_refl)).
  cbn. auto.
Defined.

Lemma supportsVersion_on_downward version major minor major' minor' :
  version_le (major', minor') (major, minor) ->
  supportsVersion_on version major minor = Ok true ->
  supportsVersion_on version major' minor' = Ok true.
Proof.
  unfold version_le, supportsVersion_on. cbn [fst snd]. intros Hle.
  destruct (sscanf (c_str version) "OpenCL %i.%i") as [vals|e|u]; cbn [outcome_bind];
    [|discriminate|discriminate].
  intros [= H]. f_equal. revert H.
  rewrite !orb_true_iff, !andb_true_iff, !Z.gtb_ltb, !Z.ltb_lt, !Z.eqb_eq, !Z.geb_leb,
    !Z.leb_le.
  lia.
Qed.

(** X7: [supportsVersion] is downward closed: a device that supports a
    version supports every version that is not later, major first and then
    minor, with the same native calls. *)
Theorem supportsVersion_downward_closed (native : Native) (tr tr' : list native_call)
  (this : Device) (major minor major' minor' : Z) :
  version_le (major', minor') (major, minor) ->
  Device.supportsVersion major minor this native tr = (Ok true, tr') ->
  Device.supportsVersion major' minor' this native tr = (Ok true, tr').
Proof.
  intros Hle. unfold Device.supportsVersion, bind, lift.
  destruct (Device.version this native tr) as [[v|e|u] tr1]; try discriminate.
  intros [= H <-]. now rewrite (supportsVersion_on_downward v _ _ _ _ Hle H).
Qed.

(** X7, witness: from 1.2 down to 1.1. *)
Lemma supportsVersion_downward_closed_witness :
  Device.supportsVersion 1 1 sample_device (sample_runtime "OpenCL 1.2 Sample") []
  = (Ok true,
     [clGetDeviceInfo 1%N CL_DEVICE_VERSION 0 false true;
      clGetDeviceInfo 1%N CL_DEVICE_VERSION 18 true false]).
Proof.
  apply (supportsVersion_downward_closed (sample_runtime "OpenCL 1.2 Sample") [] _
           sample_device 1 2 1 1).
  - right. cbn. lia.
  - reflexivity.
Defined.

(** X8: each integer query makes one device-info call with its own key and
    the width of its local variable; a status other than success is thrown,
    and a value that is returned came from a successful call and lies within
    the range of that width. *)
Theorem scalar_queries_outcome :
  Forall (fun q : (Device -> M Z) * cl_device_info * N =>
            let '(query, info, bytes) := q in
            forall (native : Native) (tr : list native_call) (this : Device),
              let c := clGetDeviceInfo (_id this) info bytes true false in
              snd (query this native tr) = tr ++ [c]
              /\ (status (native tr c) <> CL_SUCCESS ->
                  fst (query this native tr) = Throw (NativeApiError (status (native tr c))))
              /\ (forall v, fst (query this native tr) = Ok v ->
                            status (native tr c) = CL_SUCCESS
                            /\ 0 <= v < 2 ^ (8 * Z.of_N bytes)))
         scalar_queries.
Proof.
  unfold scalar_queries.
  repeat (apply Forall_cons; [|]); [.. | apply Forall_nil];
    cbv beta iota zeta; intros native tr this; run_m; unfold Device.id;
    match goal with
    | |- context [status ?r =? CL_SUCCESS] =>
        destruct (Z.eqb_spec (status r) CL_SUCCESS) as [Hst|Hst];
        [ destruct (data r); cbn [fst snd];
          (split; [reflexivity | split; [intros H; now elim H | intros v' Hv; try discriminate]]);
          injection Hv as <-; split; [exact Hst | apply Z.mod_pos_bound; reflexivity]
        | cbn [fst snd]; split; [reflexivity | split; [reflexivity | discriminate]] ]
    end.
Qed.

(** X9: [maxWorkItemSizes] and [imageSupport] never read an unwritten
    object, their locals being initialised: the first always returns three
    values of 64 bits after one call of size 24, the second returns [true]
    exactly when the runtime wrote [CL_TRUE]. *)
Theorem initialised_queries_outcome (native : Native) (tr : list native_call)
  (this : Device) :
  (forall u, fst (Device.maxWorkItemSizes this native tr) <> Undefined u)
  /\ (forall vs, fst (Device.maxWorkItemSizes this native tr) = Ok vs ->
        List.length vs = 3%nat /\ Forall (fun v => 0 <= v < 2 ^ 64) vs)
  /\ snd (Device.maxWorkItemSizes this native tr)
     = tr ++ [clGetDeviceInfo (_id this) CL_DEVICE_MAX_WORK_ITEM_SIZES 24 true false]
  /\ (forall u, fst (Device.imageSupport this native tr) <> Undefined u)
  /\ (forall b, fst (Device.imageSupport this native tr) = Ok b ->
        (b = true <->
         exists v, data (native tr (clGetDeviceInfo (_id this) CL_DEVICE_IMAGE_SUPPORT 4 true false))
                   = Scalar v /\ v mod 2 ^ 32 = CL_TRUE))
  /\ snd (Device.imageSupport this native tr)
     = tr ++ [clGetDeviceInfo (_id this) CL_DEVICE_IMAGE_SUPPORT 4 true false].
Proof.
  run_m. unfold Device.id.
  repeat split.
  - intros u. destruct (status _ =? CL_SUCCESS); [destruct (data _)|]; discriminate.
  - destruct (status _ =? CL_SUCCESS); [|discriminate].
    destruct (data _); cbn [fst] in H; injection H as <-; reflexivity.
  - destruct (status _ =? CL_SUCCESS); [|discriminate].
    destruct (data _); cbn [fst] in H; injection H as <-; cbn [map];
      repeat constructor; try (apply Z.mod_pos_bound; reflexivity); reflexivity.
  - destruct (status _ =? CL_SUCCESS); [destruct (data _)|]; reflexivity.
  - intros u. destruct (status _ =? CL_SUCCESS); [destruct (data _)|]; discriminate.
  - destruct (status _ =? CL_SUCCESS); [|discriminate].
    destruct (data _) eqn:Hd; cbn [fst] in H; injection H as <-; try discriminate.
    intros Hv. apply Z.eqb_eq in Hv. eauto.
  - destruct (status _ =? CL_SUCCESS); [|discriminate].
    intros (v & Hd & Hv). rewrite Hd in H. cbn [fst] in H. injection H as <-.
    now apply Z.eqb_eq.
  - destruct (status _ =? CL_SUCCESS); [destruct (data _)|]; reflexivity.
Qed.

(** X10: the version check makes its one call whatever the status and
    never throws; a platform version of up to 127 characters is compared, one
    of 128 characters or more does not fit the local array and the scan then
    reads the array unwritten, as it does when the runtime writes nothing. *)
Theorem version_array_bound (native : Native) (tr : list native_call) (pl : cl_platform_id) :
  let q := clGetPlatformInfo pl CL_PLATFORM_VERSION 128 true true in
  (forall e, fst (Device.supportsAtLeast1Point2 pl native tr) <> Throw e)
  /\ (forall s, data (native tr q) = Chars s -> (String.length s <= 127)%nat ->
        Device.supportsAtLeast1Point2 pl native tr
        = (supportsAtLeast1Point2_on (c_str s), tr ++ [q]))
  /\ (forall s, data (native tr q) = Chars s -> (128 <= String.length s)%nat ->
        Device.supportsAtLeast1Point2 pl native tr = (Undefined UninitializedRead, tr ++ [q]))
  /\ (data (native tr q) = NoData ->
      Device.supportsAtLeast1Point2 pl native tr = (Undefined UninitializedRead, tr ++ [q])).
Proof.
  intros q. run_m. fold q. unfold written_string. repeat split.
  - intros e. destruct (data (native tr q)); try discriminate.
    destruct (N.leb _ _); [|discriminate]. cbn [fst].
    unfold supportsAtLeast1Point2_on, sscanf.
    pose proof (run_never_throws (parse_format (list_ascii_of_string "OpenCL %i.%i"))
                  (until_nul (c_str s))) as H.
    destruct (run _ _) as [vals|e'|u]; cbn [outcome_bind]; try discriminate.
    now elim (H e').
  - intros s Hd Hlen. rewrite Hd.
    destruct (N.leb_spec (N.of_nat (String.length s) + 1) 128); [reflexivity | lia].
  - intros s Hd Hlen. rewrite Hd.
    destruct (N.leb_spec (N.of_nat (String.length s) + 1) 128); [lia | reflexivity].
  - intros Hd. rewrite Hd. reflexivity.
Qed.
End MoreQueryFacts.

Section MoreLifetimeFacts.
Local Open Scope Z_scope.

Ltac run_l :=
  unfold Device.dtor, Device.copy, Device.assign, Device.ctor,
    Device.release_if_supported, Device.retain_if_supported,
    Device.supportsAtLeast1Point2, Device.platform, read_handle, read_scalar,
    OPENCL_SAFE_CALL, bind, call, ret, throw, undefined_behaviour, lift;
  cbn [Device.id _id _type fst snd].

Ltac split_all :=
  repeat match goal with
    | |- context [if ?b then _ else _] => destruct b eqn:?
    | |- context [match data ?r with _ => _ end] => destruct (data r) eqn:?
    | |- context [match written_string ?n ?r with _ => _ end] =>
        destruct (written_string n r) eqn:?
    | |- context [match ?o with Ok _ => _ | Throw _ => _ | Undefined _ => _ end] =>
        destruct o eqn:?
    end; cbn [fst snd].

(** The calls of the retain step: the platform and version queries, and
    at most one retain of the identifier. *)
Lemma retain_if_supported_calls native tr v12 this :
  exists calls,
    snd (Device.retain_if_supported v12 this native tr) = tr ++ calls
    /\ releases calls = []
    /\ (retains calls = [] \/ retains calls = [clRetainDevice (_id this)])
    /\ (v12 = false -> calls = []).
Proof.
  destruct v12.
  - run_l. unfold Device.id. split_all; rewrite <- ?app_assoc; cbn [app];
      eexists; (split; [reflexivity|]); cbn; auto; repeat split; auto; discriminate.
  - exists []. cbn. rewrite app_nil_r. auto.
Qed.

Lemma retain_if_supported_counted native tr this pl version counted :
  reports_platform native (_id this) pl version -> pl <> 0%N ->
  accepts_counting native (_id this) ->
  supportsAtLeast1Point2_on (c_str version) = Ok counted ->
  Device.retain_if_supported true this native tr
  = (Ok tt, tr ++ [clGetDeviceInfo (_id this) CL_DEVICE_PLATFORM 8 true false;
                   clGetPlatformInfo pl CL_PLATFORM_VERSION 128 true true]
               ++ (if counted then [clRetainDevice (_id this)] else [])).
Proof.
  intros Hp Hpl Hc Hgate. run_l. unfold Device.id.
  destruct (Hp tr) as (Hst & Hd & _). rewrite Hst, Z.eqb_refl. cbv beta iota.
  rewrite Hd. cbv beta iota. rewrite (proj2 (N.eqb_neq _ _) Hpl). cbv beta iota.
  destruct (Hp (tr ++ [clGetDeviceInfo (_id this) CL_DEVICE_PLATFORM 8 true false]))
    as (_ & _ & Hw).
  rewrite Hw. cbv beta iota. rewrite Hgate. cbv beta iota.
  destruct counted.
  - destruct (Hc ((tr ++ [clGetDeviceInfo (_id this) CL_DEVICE_PLATFORM 8 true false])
                  ++ [clGetPlatformInfo pl CL_PLATFORM_VERSION 128 true true])) as (Hr & _).
    rewrite Hr, Z.eqb_refl. rewrite <- !app_assoc. reflexivity.
  - rewrite <- !app_assoc. reflexivity.
Qed.

Lemma release_if_supported_counted native tr this pl version counted :
  reports_platform native (_id this) pl version -> pl <> 0%N ->
  accepts_counting native (_id this) ->
  supportsAtLeast1Point2_on (c_str version) = Ok counted ->
  Device.release_if_supported true this native tr
  = (Ok tt, tr ++ [clGetDeviceInfo (_id this) CL_DEVICE_PLATFORM 8 true false;
                   clGetPlatformInfo pl CL_PLATFORM_VERSION 128 true true]
               ++ (if counted then [clReleaseDevice (_id this)] else [])).
Proof.
  intros Hp Hpl Hc Hgate. run_l. unfold Device.id.
  destruct (Hp tr) as (Hst & Hd & _). rewrite Hst, Z.eqb_refl. cbv beta iota.
  rewrite Hd. cbv beta iota. rewrite (proj2 (N.eqb_neq _ _) Hpl). cbv beta iota.
  destruct (Hp (tr ++ [clGetDeviceInfo (_id this) CL_DEVICE_PLATFORM 8 true false]))
    as (_ & _ & Hw).
  rewrite Hw. cbv beta iota. rewrite Hgate. cbv beta iota.
  destruct counted.
  - destruct (Hc ((tr ++ [clGetDeviceInfo (_id this) CL_DEVICE_PLATFORM 8 true false])
                  ++ [clGetPlatformInfo pl CL_PLATFORM_VERSION 128 true true])) as (_ & Hr).
    rewrite Hr, Z.eqb_refl. rewrite <- !app_assoc. reflexivity.
  - rewrite <- !app_assoc. reflexivity.
Qed.

(** X11: the constructor makes one call, the type query on the identifier
    given, and no retain; a status other than success is thrown, and a handle
    that is constructed stores the identifier given. *)
Theorem ctor_outcome (native : Native) (tr : list native_call) (dev : cl_device_id) :
  let q := clGetDeviceInfo dev CL_DEVICE_TYPE 8 true false in
  snd (Device.ctor dev native tr) = tr ++ [q]
  /\ (status (native tr q) <> CL_SUCCESS ->
      fst (Device.ctor dev native tr) = Throw (NativeApiError (status (native tr q))))
  /\ (forall this, fst (Device.ctor dev native tr) = Ok this ->
        _id this = dev /\ status (native tr q) = CL_SUCCESS).
Proof.
  intros q. run_l. fold q.
  destruct (Z.eqb_spec (status (native tr q)) CL_SUCCESS) as [Hst|Hst].
  - destruct (data (native tr q)); cbn [fst snd];
      (split; [reflexivity | split; [intros H; now elim H | intros this H; try discriminate]]).
    injection H as <-. auto.
  - cbn [fst snd]. split; [reflexivity | split; [reflexivity | discriminate]].
Qed.

(** X12: the copy constructor never releases and retains at most once, the
    identifier copied; in a build without [OPENCL_V1_2] it makes no call; a
    copy that is constructed equals the original, identifier and category. *)
Theorem copy_outcome (native : Native) (tr : list native_call) (v12 : bool) (dev : Device) :
  (exists calls,
      snd (Device.copy v12 dev native tr) = tr ++ calls
      /\ releases calls = []
      /\ (retains calls = [] \/ retains calls = [clRetainDevice (_id dev)])
      /\ (v12 = false -> calls = []))
  /\ (forall this, fst (Device.copy v12 dev native tr) = Ok this ->
        this = dev /\ Device.eq this dev = true).
Proof.
  unfold Device.copy, bind, ret.
  pose proof (retain_if_supported_calls native tr v12
                {| _id := _id dev; _type := _type dev |}) as (calls & Hc).
  cbn [_id] in Hc.
  destruct (Device.retain_if_supported v12 _ native tr) as [[[]|e|u] tr'];
    cbn [fst snd] in *; (split; [exists calls; exact Hc|]); intros this H; try discriminate.
  injection H as <-. destruct dev as [i t]. cbn. split; [reflexivity | apply N.eqb_refl].
Qed.

(** X13: self-assignment changes nothing and makes no call; assignment from
    another handle never releases the identifier it overwrites, retains the
    new one at most once, and leaves the target with the source's identifier
    and category. *)
Theorem assign_outcome (native : Native) (tr : list native_call) (v12 : bool)
  (this dev : Device) :
  Device.assign v12 true this dev native tr = (Ok this, tr)
  /\ (exists calls,
        snd (Device.assign v12 false this dev native tr) = tr ++ calls
        /\ releases calls = []
        /\ (retains calls = [] \/ retains calls = [clRetainDevice (_id dev)])
        /\ (v12 = false -> calls = []))
  /\ (forall r, fst (Device.assign v12 false this dev native tr) = Ok r -> r = dev).
Proof.
  split; [reflexivity|].
  unfold Device.assign, bind, ret. cbn [negb].
  pose proof (retain_if_supported_calls native tr v12
                {| _id := _id dev; _type := _type dev |}) as (calls & Hc).
  cbn [_id] in Hc.
  destruct (Device.retain_if_supported v12 _ native tr) as [[[]|e|u] tr'];
    cbn [fst snd] in *; (split; [exists calls; exact Hc|]); intros r H; try discriminate.
  injection H as <-. now destruct dev.
Qed.

(** X14: unlike the destructor, the copy constructor does not test the
    identifier: copying an empty handle in a build with [OPENCL_V1_2] asks the
    runtime for the platform of the null identifier and throws the status if
    that is refused, while destroying an empty handle makes no call. *)
Theorem copy_of_empty_handle (native : Native) (tr : list native_call) (dev : Device) :
  _id dev = 0%N ->
  let q := clGetDeviceInfo 0%N CL_DEVICE_PLATFORM 8 true false in
  (exists rest, snd (Device.copy true dev native tr) = tr ++ q :: rest)
  /\ (status (native tr q) <> CL_SUCCESS ->
      Device.copy true dev native tr = (Throw (NativeApiError (status (native tr q))), tr ++ [q]))
  /\ Device.copy false dev native tr = (Ok dev, tr)
  /\ Device.dtor true dev native tr = (Ok dev, tr).
Proof.
  intros Hid q. split; [|split; [|split]].
  - run_l. rewrite Hid. fold q. split_all; rewrite <- ?app_assoc; cbn [app]; eauto.
  - intros Hst. run_l. rewrite Hid. fold q. now rewrite (proj2 (Z.eqb_neq _ _) Hst).
  - destruct dev. reflexivity.
  - unfold Device.dtor. rewrite Hid. reflexivity.
Qed.

(** X14, witness: a runtime that refuses the null device. *)
Lemma copy_of_empty_handle_witness :
  Device.copy true Device.empty (sample_runtime "OpenCL 1.2 Sample") []
  = (Throw (NativeApiError CL_INVALID_DEVICE),
     [clGetDeviceInfo 0%N CL_DEVICE_PLATFORM 8 true false]).
Proof.
  apply (proj1 (proj2 (copy_of_empty_handle (sample_runtime "OpenCL 1.2 Sample") []
                         Device.empty eq_refl))).
  discriminate.
Defined.

(** X15: on a runtime that reports the platform and its version and accepts
    counting, copying a handle and destroying the copy is balanced: one retain
    followed by one release when the version is at least 1.2, neither of them
    otherwise, and the destroyed copy ends with the null identifier. *)
Theorem copy_then_destroy_balanced (native : Native) (tr : list native_call) (dev : Device)
  (pl : cl_platform_id) (version : string) (counted : bool) :
  _id dev <> 0%N -> pl <> 0%N ->
  reports_platform native (_id dev) pl version ->
  accepts_counting native (_id dev) ->
  supportsAtLeast1Point2_on (c_str version) = Ok counted ->
  let q1 := clGetDeviceInfo (_id dev) CL_DEVICE_PLATFORM 8 true false in
  let q2 := clGetPlatformInfo pl CL_PLATFORM_VERSION 128 true true in
  bind (Device.copy true dev) (Device.dtor true) native tr
  = (Ok {| _id := 0%N; _type := _type dev |},
     tr ++ [q1; q2] ++ (if counted then [clRetainDevice (_id dev)] else [])
        ++ [q1; q2] ++ (if counted then [clReleaseDevice (_id dev)] else [])).
Proof.
  intros Hid Hpl Hp Hc Hgate q1 q2.
  unfold bind at 1. unfold Device.copy, bind at 1, ret.
  rewrite (retain_if_supported_counted native tr {| _id := _id dev; _type := _type dev |}
             pl version counted Hp Hpl Hc Hgate).
  cbn [_id _type]. unfold Device.dtor. cbn [_id _type].
  rewrite (proj2 (N.eqb_neq _ _) Hid). cbn [negb]. unfold bind, ret.
  rewrite (release_if_supported_counted native _ {| _id := _id dev; _type := _type dev |}
             pl version counted Hp Hpl Hc Hgate).
  cbn [_id _type]. subst q1 q2. rewrite <- !app_assoc. reflexivity.
Qed.

(** X15, witness: a device of a 2.0 platform. *)
Lemma copy_then_destroy_balanced_witness :
  bind (Device.copy true sample_device) (Device.dtor true)
    (sample_runtime "OpenCL 2.0 Sample") []
  = (Ok {| _id := 0%N; _type := GPU |},
     [clGetDeviceInfo 1%N CL_DEVICE_PLATFORM 8 true false;
      clGetPlatformInfo 7%N CL_PLATFORM_VERSION 128 true true;
      clRetainDevice 1%N;
      clGetDeviceInfo 1%N CL_DEVICE_PLATFORM 8 true false;
      clGetPlatformInfo 7%N CL_PLATFORM_VERSION 128 true true;
      clReleaseDevice 1%N]).
Proof.
  apply (copy_then_destroy_balanced (sample_runtime "OpenCL 2.0 Sample") [] sample_device
           7%N "OpenCL 2.0 Sample" true).
  - discriminate.
  - discriminate.
  - intros tr. repeat split.
  - intros tr. split; reflexivity.
  - reflexivity.
Defined.

(** X16: a handle constructed from a raw identifier and then destroyed
    releases the device once without having retained it, on a platform of
    version at least 1.2. *)
Theorem construct_then_destroy_releases (native : Native) (tr : list native_call)
  (dev : cl_device_id) (pl : cl_platform_id) (version : string) (t : Z) :
  dev <> 0%N -> pl <> 0%N ->
  status (native tr (clGetDeviceInfo dev CL_DEVICE_TYPE 8 true false)) = CL_SUCCESS ->
  data (native tr (clGetDeviceInfo dev CL_DEVICE_TYPE 8 true false)) = Scalar t ->
  reports_platform native dev pl version ->
  accepts_counting native dev ->
  supportsAtLeast1Point2_on (c_str version) = Ok true ->
  exists calls,
    snd (bind (Device.ctor dev) (Device.dtor true) native tr) = tr ++ calls
    /\ retains calls = []
    /\ releases calls = [clReleaseDevice dev].
Proof.
  intros Hdev Hpl Hst Hd Hp Hc Hgate.
  unfold bind at 1. unfold Device.ctor, bind, call, OPENCL_SAFE_CALL, read_scalar, ret.
  rewrite Hst, Z.eqb_refl. cbv beta iota. rewrite Hd. cbv beta iota.
  unfold Device.dtor. cbn [_id _type].
  rewrite (proj2 (N.eqb_neq _ _) Hdev). cbn [negb]. unfold bind, ret.
  rewrite (release_if_supported_counted native _ {| _id := dev; _type := _ |}
             pl version true Hp Hpl Hc Hgate).
  cbn [_id snd]. rewrite <- !app_assoc. eexists. split; [reflexivity|]. cbn. auto.
Qed.

(** X16, witness: a device of a 1.2 platform. *)
Lemma construct_then_destroy_releases_witness :
  exists calls,
    snd (bind (Device.ctor 1%N) (Device.dtor true) (sample_runtime "OpenCL 1.2 Sample") [])
    = [] ++ calls
    /\ retains calls = []
    /\ releases calls = [clReleaseDevice 1%N].
Proof.
  apply (construct_then_destroy_releases (sample_runtime "OpenCL 1.2 Sample") [] 1%N 7%N
           "OpenCL 1.2 Sample" CL_DEVICE_TYPE_GPU).
  - discriminate.
  - discriminate.
  - reflexivity.
  - reflexivity.
  - intros tr. repeat split.
  - intros tr. split; reflexivity.
  - reflexivity.
Defined.

(** X17: the destructor releases only when counting is supported: a release
    among its calls means the build has [OPENCL_V1_2], the released identifier
    is the handle's own and not null, the platform query succeeded with a
    non-null platform and the version written passed the check. *)
Theorem release_only_when_counted (native : Native) (tr : list native_call) (v12 : bool)
  (this : Device) (calls : list native_call) (d : cl_device_id) :
  snd (Device.dtor v12 this native tr) = tr ++ calls ->
  In (clReleaseDevice d) calls ->
  let q1 := clGetDeviceInfo (_id this) CL_DEVICE_PLATFORM 8 true false in
  v12 = true /\ d = _id this /\ d <> 0%N
  /\ status (native tr q1) = CL_SUCCESS
  /\ exists pl version,
       data (native tr q1) = Handle pl /\ pl <> 0%N
       /\ written_string 128
            (native (tr ++ [q1]) (clGetPlatformInfo pl CL_PLATFORM_VERSION 128 true true))
          = Some version
       /\ supportsAtLeast1Point2_on (c_str version) = Ok true.
Proof.
  intros Hsnd Hin q1. revert Hsnd. unfold Device.dtor.
  destruct (N.eqb_spec (_id this) 0) as [Hz|Hnz]; cbn [negb].
  - cbn. intros H. rewrite <- (app_nil_r tr) in H at 1. apply app_inv_head in H.
    subst calls. contradiction.
  - destruct v12.
    + run_l. unfold Device.id. fold q1.
      destruct (Z.eqb_spec (status (native tr q1)) CL_SUCCESS) as [Hst|Hst]; cbn [fst snd];
        [|intros H; apply app_inv_head in H; subst calls;
          destruct Hin as [Hin|[]]; discriminate].
      destruct (data (native tr q1)) as [| | |pl|] eqn:Hd; cbn [fst snd];
        try (intros H; apply app_inv_head in H; subst calls;
             destruct Hin as [Hin|[]]; discriminate).
      destruct (N.eqb_spec pl 0) as [Hpl|Hpl]; cbn [fst snd];
        [intros H; apply app_inv_head in H; subst calls;
         destruct Hin as [Hin|[]]; discriminate|].
      destruct (written_string 128 _) as [version|] eqn:Hw; cbn [fst snd];
        [|intros H; rewrite <- app_assoc in H; apply app_inv_head in H; subst calls;
          destruct Hin as [Hin|[Hin|[]]]; discriminate].
      destruct (supportsAtLeast1Point2_on (c_str version)) as [[|]|e|u] eqn:Hg; cbn [fst snd];
        try (intros H; rewrite <- app_assoc in H; apply app_inv_head in H; subst calls;
             destruct Hin as [Hin|[Hin|[]]]; discriminate).
      intros H.
      assert (Hcalls : calls = [q1; clGetPlatformInfo pl CL_PLATFORM_VERSION 128 true true;
                                clReleaseDevice (_id this)]).
      { destruct (status _ =? CL_SUCCESS) in H; cbn [fst snd] in H;
          rewrite <- !app_assoc in H; apply app_inv_head in H; now subst calls. }
      subst calls. destruct Hin as [Hin|[Hin|[Hin|[]]]]; try discriminate.
      injection Hin as <-. repeat split; auto. exists pl, version. auto.
    + cbn. intros H. rewrite <- (app_nil_r tr) in H at 1. apply app_inv_head in H.
      subst calls. contradiction.
Qed.

(** X17, witness: the release made for the sample device. *)
Lemma release_only_when_counted_witness :
  true = true /\ 1%N = _id sample_device.
Proof.
  pose proof (release_only_when_counted (sample_runtime "OpenCL 1.2 Sample") [] true
                sample_device _ 1%N eq_refl ltac:(cbn; auto)) as H.
  exact (conj (proj1 H) (proj1 (proj2 H))).
Defined.

(** X18: equality of handles is transitive and is the comparison of one
    handle with the other's raw identifier; after [setId] a handle equals
    the identifier set, and equals exactly the handles that hold it. *)
Theorem equality_is_an_equivalence (a b c : Device) (raw : cl_device_id)
  (native : Native) (tr : list native_call) :
  (Device.eq a b = true -> Device.eq b c = true -> Device.eq a c = true)
  /\ Device.eq a b = Device.eq_id a (Device.id b)
  /\ (forall a', fst (Device.setId raw a native tr) = Ok a' ->
        Device.eq_id a' raw = true
        /\ (Device.eq a' b = true <-> Device.eq_id b raw = true)).
Proof.
  unfold Device.eq, Device.eq_id, Device.id, Device.setId, ret. cbn [fst].
  split; [|split].
  - rewrite !N.eqb_eq. congruence.
  - reflexivity.
  - intros a' [= <-]. cbn [_id]. rewrite !N.eqb_eq. split; [reflexivity | split; congruence].
Qed.
End MoreLifetimeFacts.

(** ** Instances *)

Section Instances.
Local Open Scope Z_scope.

(** X8, witness: [maxComputeUnits] on the null device, refused. *)
Lemma scalar_queries_outcome_witness :
  fst (Device.maxComputeUnits Device.empty (sample_runtime "OpenCL 1.2 Sample") [])
  = Throw (NativeApiError CL_INVALID_DEVICE).
Proof.
  apply (proj1 (proj2 (Forall_inv scalar_queries_outcome
                         (sample_runtime "OpenCL 1.2 Sample") [] Device.empty))).
  discriminate.
Defined.

(** X9, witness: the work-item sizes of the sample device. *)
Lemma initialised_queries_outcome_witness :
  List.length [1024; 1024; 64] = 3%nat /\ Forall (fun v => 0 <= v < 2 ^ 64) [1024; 1024; 64].
Proof.
  apply (proj1 (proj2 (initialised_queries_outcome (sample_runtime "OpenCL 1.2 Sample") []
                         sample_device)) [1024; 1024; 64]).
  reflexivity.
Defined.

(** X10, witness: the version of the sample platform fits. *)
Lemma version_array_bound_witness :
  Device.supportsAtLeast1Point2 7%N (sample_runtime "OpenCL 1.2 Sample") []
  = (supportsAtLeast1Point2_on (c_str "OpenCL 1.2 Sample"),
     [clGetPlatformInfo 7%N CL_PLATFORM_VERSION 128 true true]).
Proof.
  apply (proj1 (proj2 (version_array_bound (sample_runtime "OpenCL 1.2 Sample") [] 7%N))
           "OpenCL 1.2 Sample"%string).
  - reflexivity.
  - cbn. lia.
Defined.

(** X11, witness: construction from the null identifier, refused. *)
Lemma ctor_outcome_witness :
  fst (Device.ctor 0%N (sample_runtime "OpenCL 1.2 Sample") [])
  = Throw (NativeApiError CL_INVALID_DEVICE).
Proof.
  apply (proj1 (proj2 (ctor_outcome (sample_runtime "OpenCL 1.2 Sample") [] 0%N))).
  discriminate.
Defined.

(** X12, witness: a copy of the sample device on a 1.2 platform. *)
Lemma copy_outcome_witness :
  sample_device = sample_device /\ Device.eq sample_device sample_device = true.
Proof.
  apply (proj2 (copy_outcome (sample_runtime "OpenCL 1.2 Sample") [] true sample_device)
           sample_device).
  reflexivity.
Defined.

(** X13, witness: the empty handle assigned from the sample device. *)
Lemma assign_outcome_witness :
  sample_device = sample_device.
Proof.
  apply (proj2 (proj2 (assign_outcome (sample_runtime "OpenCL 1.2 Sample") [] true
                         Device.empty sample_device)) sample_device).
  reflexivity.
Defined.

(** X18, witness: three handles on one identifier with different
    categories. *)
Lemma equality_is_an_equivalence_witness :
  Device.eq {| _id := 1%N; _type := GPU |} {| _id := 1%N; _type := ALL |} = true.
Proof.
  apply (proj1 (equality_is_an_equivalence {| _id := 1%N; _type := GPU |}
                  {| _id := 1%N; _type := CPU |} {| _id := 1%N; _type := ALL |} 0%N
                  orphan_runtime [])); reflexivity.
Defined.

End Instances.
